(** * A shallow embedding of the mnemonic-phrase detector (bip39_words.py)

    The detector reads a word list into a set, tokenizes free text into
    lowercase ASCII words, and decides with three strategies (contiguous
    run, dense sliding window, overall density) whether the text embeds a
    BIP39 seed phrase.  The definitions below follow the Python source
    function by function; the theorems at the end relate them to the
    prose specification. *)

From Stdlib Require Import Floats.PrimFloat Numbers.Cyclic.Int63.Uint63.
From Stdlib Require Import ZArith QArith Qround Ascii String List Lia.
From stdpp Require Import base decidable option list countable sets gmap.

Open Scope Z_scope.

(** ** Python strings

    A Python [str] is a sequence of Unicode code points; it is modelled as
    a list of code points.  Literals of the source are written as Rocq
    strings and converted with [py]. *)

Definition char : Type := N.
Definition str : Type := list N.

Definition py (s : string) : str := N_of_ascii <$> list_ascii_of_string s.

(** [len(x)] of a Python sequence, as a Python integer. *)
Definition len {A} (l : list A) : Z := Z.of_nat (length l).

(** Truthiness of a string or list: non-empty. *)
Definition truthy {A} (l : list A) : bool :=
  match l with [] => false | _ => true end.

(** The characters for which CPython's [str.isspace], [str.split],
    [str.strip] and the regular expression class [\s] (on [str] patterns)
    agree: the Unicode white-space table of the interpreter. *)
Definition isspace (c : char) : bool :=
  ((9 <=? c) && (c <=? 13) || (28 <=? c) && (c <=? 32)
   || (c =? 133) || (c =? 160) || (c =? 5760)
   || (8192 <=? c) && (c <=? 8202)
   || (c =? 8232) || (c =? 8233) || (c =? 8239) || (c =? 8287)
   || (c =? 12288))%N.

(** The regular expression classes [a-z] and [A-Z]. *)
Definition is_ascii_lower (c : char) : bool := ((97 <=? c) && (c <=? 122))%N.
Definition is_ascii_upper (c : char) : bool := ((65 <=? c) && (c <=? 90))%N.
Definition is_ascii_letter (c : char) : bool :=
  is_ascii_lower c || is_ascii_upper c.

(** [re.sub(r'[^a-zA-Z\s]', ' ', text)]: every character outside the class
    is replaced by one space. *)
Definition sub_non_english (s : str) : str :=
  (fun c => if is_ascii_letter c || isspace c then c else 32%N) <$> s.

(** [str.split()] without arguments: the maximal runs of non-white-space
    characters, left to right.  [cur] is the run being read, reversed. *)
Fixpoint split_from (cur : str) (s : str) : list str :=
  match s with
  | [] => if truthy cur then [rev cur] else []
  | c :: s' =>
      if isspace c
      then (if truthy cur then rev cur :: split_from [] s' else split_from [] s')
      else split_from (c :: cur) s'
  end.

Definition split (s : str) : list str := split_from [] s.

(** [str.strip()]: leading and trailing white space removed. *)
Fixpoint lstrip (s : str) : str :=
  match s with
  | [] => []
  | c :: s' => if isspace c then lstrip s' else s
  end.

Definition rstrip (s : str) : str := rev (lstrip (rev s)).
Definition strip (s : str) : str := rstrip (lstrip s).

(** [str.lower()].  Only its action on ASCII is modelled (upper-case
    letters move to lower case, every other ASCII character is kept); in
    the source it is applied to words made of ASCII letters only, see
    [split_sub_letters] below. *)
Definition lower_char (c : char) : char :=
  if is_ascii_upper c then (c + 32)%N else c.
Definition lower (s : str) : str := lower_char <$> s.

(** [sep.join(l)]. *)
Fixpoint join (sep : str) (l : list str) : str :=
  match l with
  | [] => []
  | [x] => x
  | x :: l' => x ++ sep ++ join sep l'
  end.

(** [sum(l)] of a list of integers. *)
Definition sum (l : list Z) : Z := fold_left Z.add l 0.

(** [range(n)] for an integer [n]: empty when [n <= 0]. *)
Definition range (n : Z) : list Z := Z.of_nat <$> seq 0 (Z.to_nat n).

(** The slice [l[i:j]] for [0 <= i <= j]; as in Python it is cut at the end
    of the list and never raises. *)
Definition slice {A} (l : list A) (i j : Z) : list A :=
  take (Z.to_nat (j - i)) (drop (Z.to_nat i) l).

(** Lines of a text file opened in text mode, as iteration over the file
    object yields them: each line ends after its line feed, the last one at
    the end of the file. *)
Fixpoint lines_from (cur : str) (s : str) : list str :=
  match s with
  | [] => if truthy cur then [rev cur] else []
  | c :: s' =>
      if (c =? 10)%N then rev (c :: cur) :: lines_from [] s'
      else lines_from (c :: cur) s'
  end.

Definition file_lines (content : str) : list str := lines_from [] content.

(** ** config.py *)

Module config.

Definition MIN_SEED_WORDS : Z := 12.
Definition BIP39_WORDLIST_FILE : str := py "english.txt".
Definition MAX_RESULTS_PER_PAGE : Z := 100.
Definition MAX_PAGES_PER_VIDEO : Z := 10.
Definition TIMESTAMP_FILE : str := py "last_scan_time.json".
Definition FORCE_FULL_SCAN : bool := false.
Definition DAYS_TO_SCAN : option Z := None.

End config.

(** ** Floats

    The source compares integers with the floats [MIN_SEED_WORDS * 0.9] and
    [len(bip39_matches) / len(words)].  Floats are modelled by the exact
    rationals they approximate.  Python compares an integer with a float
    by value; the binary64 product [12 * 0.9] lies strictly between 10 and
    11 (see [binary64_window_threshold_between] and
    [dense_binary64_agrees] below), and the correctly rounded quotient of
    two integers below 2^53 compares with 0.5 as the exact quotient does,
    so the comparisons of the source have the outcome computed here. *)

Definition Qge_bool (x y : Q) : bool := Qle_bool y x.

(** The binary64 value of [config.MIN_SEED_WORDS * 0.9], with 0.9 rounded
    to the nearest float as the interpreter reads it. *)
Definition binary64_window_threshold : PrimFloat.float :=
  PrimFloat.mul (PrimFloat.of_uint63 (Uint63.of_Z config.MIN_SEED_WORDS))
    0x1.ccccccccccccdp-1%float.

(** ** Effects: logging and exceptions

    A computation returns the log records it emitted and either the
    exception it raised or its value. *)

Inductive exception : Type :=
| ZeroDivisionError
| OSError
| UnicodeDecodeError.

Inductive log_record : Type :=
| ErrorWordlistMissing (filepath : str)
| InfoWordlistLoaded (n : Z)
| ErrorWordlistLoad (e : exception)
| InfoConsecutive (max_consecutive : Z)
| InfoDenseWindow (window : list str)
| InfoHighDensity (bip39_matches : list str).

Definition M (A : Type) : Type := (list log_record * (exception + A))%type.

Definition M_ret_def {A} (a : A) : M A := ([], inr a).

Definition M_bind_def {A B} (k : A -> M B) (m : M A) : M B :=
  match m with
  | (l, inl e) => (l, inl e)
  | (l, inr a) => let '(l', r) := k a in (l ++ l', r)
  end.

#[global] Instance M_ret : MRet M := @M_ret_def.
#[global] Instance M_bind : MBind M := @M_bind_def.

Definition raise {A} (e : exception) : M A := ([], inl e).

Definition logging (r : log_record) : M unit := ([r], inr tt).

(** [try: body except Exception as e: handler]. *)
Definition try_except {A} (body : M A) (handler : exception -> M A) : M A :=
  match body with
  | (l, inl e) => let '(l', r) := handler e in (l ++ l', r)
  | (l, inr a) => (l, inr a)
  end.

(** What a computation returns, when it returns. *)
Definition returns {A} (m : M A) (a : A) : Prop := snd m = inr a.

(** True division [a / b] of two integers. *)
Definition truediv (a b : Z) : M Q :=
  if b =? 0 then raise ZeroDivisionError else mret (inject_Z a / inject_Z b)%Q.

(** ** extract_english_words *)

Definition extract_english_words (text : str) : list str :=
  let english_only := sub_non_english text in
  let words :=
    lower <$> filter (fun word => truthy (strip word) = true) (split english_only) in
  words.

(** ** is_potential_seed_phrase *)

(** Body of the loop [for word in words] that tracks the longest run; the
    state is [(consecutive_count, max_consecutive)]. *)
Definition run_step (bip39_words : gset str) (st : Z * Z) (word : str) : Z * Z :=
  let '(consecutive_count, max_consecutive) := st in
  if bool_decide (word ∈ bip39_words)
  then
    let consecutive_count := consecutive_count + 1 in
    (consecutive_count, Z.max max_consecutive consecutive_count)
  else (0, max_consecutive).

(** The test [count >= config.MIN_SEED_WORDS * 0.9] of both sliding-window
    loops. *)
Definition dense (count : Z) : bool :=
  Qge_bool (inject_Z count) (inject_Z config.MIN_SEED_WORDS * (9 # 10)).

(** The same test on binary64 floats, for the counts a window can have
    (small integers, which are floats). *)
Definition dense_binary64 (count : Z) : bool :=
  PrimFloat.leb binary64_window_threshold (PrimFloat.of_uint63 (Uint63.of_Z count)).

(** The sliding-window loop of the classifier over the given indices; it
    returns the window at which the loop returns [True], if any. *)
Fixpoint dense_window_loop (words : list str) (bip39_words : gset str)
    (indices : list Z) : option (list str) :=
  match indices with
  | [] => None
  | i :: indices' =>
      let window := slice words i (i + config.MIN_SEED_WORDS) in
      let matched_count :=
        sum ((fun _ => 1) <$> filter (fun word => word ∈ bip39_words) window) in
      if dense matched_count then Some window
      else dense_window_loop words bip39_words indices'
  end.

Definition is_potential_seed_phrase (text : str) (bip39_words : gset str) : M bool :=
  let words := extract_english_words text in
  if len words <? config.MIN_SEED_WORDS then mret false else
  let bip39_matches := filter (fun word => word ∈ bip39_words) words in
  if len bip39_matches <? config.MIN_SEED_WORDS then mret false else
  let '(consecutive_count, max_consecutive) :=
    fold_left (run_step bip39_words) words (0, 0) in
  if max_consecutive >=? config.MIN_SEED_WORDS then
    logging (InfoConsecutive max_consecutive);; mret true
  else
  match dense_window_loop words bip39_words
          (range (len words - config.MIN_SEED_WORDS + 1)) with
  | Some window => logging (InfoDenseWindow window);; mret true
  | None =>
      if len bip39_matches >=? config.MIN_SEED_WORDS then
        density ← truediv (len bip39_matches) (len words);
        if Qge_bool density (1 # 2) then
          logging (InfoHighDensity bip39_matches);; mret true
        else mret false
      else mret false
  end.

(** ** extract_seed_phrases *)

(** Body of the loop of method 1; the state is
    [(current_phrase, seed_phrases)]. *)
Definition phrase_step (bip39_words : gset str) (st : list str * list str)
    (word : str) : list str * list str :=
  let '(current_phrase, seed_phrases) := st in
  if bool_decide (word ∈ bip39_words)
  then (current_phrase ++ [word], seed_phrases)
  else
    ([], if len current_phrase >=? config.MIN_SEED_WORDS
         then seed_phrases ++ [join (py " ") current_phrase]
         else seed_phrases).

(** Body of the loop of method 2 at index [i]. *)
Definition window_step (words : list str) (bip39_words : gset str)
    (seed_phrases : list str) (i : Z) : list str :=
  let window := slice words i (i + config.MIN_SEED_WORDS) in
  let matched_words := filter (fun word => word ∈ bip39_words) window in
  if dense (len matched_words)
  then seed_phrases ++ [join (py " ") matched_words]
  else seed_phrases.

(** The list [seed_phrases] before the final [list(set(seed_phrases))]. *)
Definition seed_phrases_of (words : list str) (bip39_words : gset str) : list str :=
  let seed_phrases := [] in
  let '(current_phrase, seed_phrases) :=
    fold_left (phrase_step bip39_words) words ([], seed_phrases) in
  let seed_phrases :=
    if len current_phrase >=? config.MIN_SEED_WORDS
    then seed_phrases ++ [join (py " ") current_phrase]
    else seed_phrases in
  fold_left (window_step words bip39_words)
    (range (len words - config.MIN_SEED_WORDS + 1)) seed_phrases.

(** The result is the list of the elements of a set: the phrases without
    duplicates, in an order the set decides. *)
Definition extract_seed_phrases (text : str) (bip39_words : gset str) : list str :=
  let words := extract_english_words text in
  if len words <? config.MIN_SEED_WORDS then [] else
  elements (list_to_set (seed_phrases_of words bip39_words) : gset str).

(** ** load_bip39_words *)

(** The part of the file system the loader looks at: whether a path exists,
    and what opening and reading it as UTF-8 text gives: the decoded text
    (in text mode, so with every line end translated to a line feed), or
    the exception of a failed open, read or decoding. *)
Record file_system : Type := {
  os_path_exists : str -> bool;
  read_text : str -> exception + str
}.

Definition open_read (fs : file_system) (filepath : str) : M str :=
  ([], read_text fs filepath).

Definition load_bip39_words (fs : file_system) (filepath : option str) : M (gset str) :=
  let filepath := default config.BIP39_WORDLIST_FILE filepath in
  try_except
    (if negb (os_path_exists fs filepath) then
       logging (ErrorWordlistMissing filepath);; mret ∅
     else
       f ← open_read fs filepath;
       let words : gset str :=
         list_to_set
           (strip <$> filter (fun line => truthy (strip line) = true) (file_lines f)) in
       logging (InfoWordlistLoaded (Z.of_nat (size words)));; mret words)
    (fun e => logging (ErrorWordlistLoad e);; mret ∅).

(** ** Values, errors and events of the scanner

    The timestamp manager and the scanner handle values read from JSON and
    from the comment API, raise more kinds of exceptions and write more log
    records than the word-list module. *)

(** A value as [json.load] returns it. *)
#[warnings="-register-all"]
Inductive value : Type :=
| VNone
| VBool (b : bool)
| VInt (z : Z)
| VFloat (f : PrimFloat.float)
| VStr (s : str)
| VList (l : list value)
| VDict (d : list (str * value)).

(** Truthiness, as [if v:] tests it. *)
Definition truthy_value (v : value) : bool :=
  match v with
  | VNone => false
  | VBool b => b
  | VInt z => negb (z =? 0)
  | VFloat f => negb (PrimFloat.eqb f 0%float)
  | VStr s => truthy s
  | VList l => truthy l
  | VDict d => truthy d
  end.

(** The exceptions of class [Exception] that the scanner meets. *)
Inductive error : Type :=
| Builtin (e : exception)
| TypeError
| AttributeError
| JSONDecodeError
| HttpError.

Inductive event : Type :=
| Bip39 (r : log_record)
| InfoForcedFullScan
| InfoNoTimestampFile (path : str)
| InfoLastScanTime (last_scan_time : value)
| WarningNoScanTime
| ErrorReadTimestamp (e : error)
| InfoScanTimeUpdated (current_time : str)
| ErrorUpdateTimestamp (e : error)
| ErrorNoClient
| InfoFetchingComments (video_id : str)
| InfoRemainingOlder (video_id : str)
| InfoFetchedComments (video_id : str) (n : Z)
| ErrorFetchingComments (video_id : str) (e : error)
| InfoPhrasesFound (seed_phrases : list str)
| InfoProcessingVideo (video_title video_id : str)
| WarningScamComment (comment_author comment_id : str)
| WarningCommentText (shown : str)
| WarningPhrases (seed_phrases : list str)
| ErrorCannotLoadWords
| InfoLoadedWords (n : Z)
| InfoOnlyAfter (last_scan_time : value)
| InfoFullScan
| InfoFetchingVideos
| ErrorNoChannelInfo
| InfoReachedDateLimit
| InfoGotVideos (n : Z).

Definition P (A : Type) : Type := (list event * (error + A))%type.

Definition P_ret {A} (a : A) : P A := ([], inr a).

Definition P_bind {A B} (m : P A) (k : A -> P B) : P B :=
  match m with
  | (l, inl e) => (l, inl e)
  | (l, inr a) => let '(l', r) := k a in (l ++ l', r)
  end.

Definition P_raise {A} (e : error) : P A := ([], inl e).

Definition P_log (ev : event) : P unit := ([ev], inr tt).

Definition P_try {A} (body : P A) (handler : error -> P A) : P A :=
  match body with
  | (l, inl e) => let '(l', r) := handler e in (l ++ l', r)
  | (l, inr a) => (l, inr a)
  end.

(** A computation of the word-list module run inside the scanner. *)
Definition of_bip39 {A} (m : M A) : P A :=
  (Bip39 <$> fst m,
   match snd m with inl e => inl (Builtin e) | inr a => inr a end).

Definition P_returns {A} (m : P A) (a : A) : Prop := snd m = inr a.

(** [d.get(key)] and [d.get(key, default)] on a dictionary. *)
Fixpoint dict_get (d : list (str * value)) (key : str) (default : value) : value :=
  match d with
  | [] => default
  | (k, v) :: d' => if decide (k = key) then v else dict_get d' key default
  end.

(** [data.get(key)] on any value: only dictionaries have the method. *)
Definition value_get (data : value) (key : str) : P value :=
  match data with
  | VDict d => P_ret (dict_get d key VNone)
  | _ => P_raise AttributeError
  end.

(** [a <= b] on strings: the order of the code points, position by
    position. *)
Fixpoint str_le (a b : str) : bool :=
  match a, b with
  | [], _ => true
  | _ :: _, [] => false
  | x :: a', y :: b' =>
      if (x <? y)%N then true else if (y <? x)%N then false else str_le a' b'
  end.

(** [s <= v] for a string [s] and any value [v]: a string is ordered with
    strings only. *)
Definition str_le_value (s : str) (v : value) : P bool :=
  match v with
  | VStr t => P_ret (str_le s t)
  | _ => P_raise TypeError
  end.

(** ** timestamp_manager.py

    The timestamp file is absent, or opening it and [json.load] give an
    exception or a value.  [json.dump] followed by [json.load] is taken to
    give back the dictionary that was written. *)

Inductive timestamp_file : Type :=
| NoFile
| FileWith (doc : error + value).

Definition get_last_scan_time (file : timestamp_file) : P value :=
  if config.FORCE_FULL_SCAN then
    P_bind (P_log InfoForcedFullScan) (fun _ => P_ret VNone)
  else
  match file with
  | NoFile =>
      P_bind (P_log (InfoNoTimestampFile config.TIMESTAMP_FILE)) (fun _ => P_ret VNone)
  | FileWith doc =>
      P_try
        (P_bind (([], doc) : P value) (fun data =>
         P_bind (value_get data (py "last_scan_time")) (fun last_scan_time =>
         if truthy_value last_scan_time then
           P_bind (P_log (InfoLastScanTime last_scan_time)) (fun _ =>
           P_ret last_scan_time)
         else
           P_bind (P_log WarningNoScanTime) (fun _ => P_ret VNone))))
        (fun e => P_bind (P_log (ErrorReadTimestamp e)) (fun _ => P_ret VNone))
  end.

(** Writing the file has three outcomes: [open(..., 'w')] raises and the
    file is untouched; [open] succeeds, which empties the file, and
    [json.dump] or leaving the [with] block raises, with [remains] as what a
    later read of the file gives; or all of it succeeds. *)
Inductive write_outcome : Type :=
| Written
| OpenFails (e : error)
| DumpFails (e : error) (remains : error + value).

(** [open(config.TIMESTAMP_FILE, 'w')], paired with the file after it: an
    emptied file holds no JSON document. *)
Definition open_for_writing (outcome : write_outcome) (file : timestamp_file)
    : P unit * timestamp_file :=
  match outcome with
  | OpenFails e => (P_raise e, file)
  | _ => (P_ret tt, FileWith (inl JSONDecodeError))
  end.

(** [json.dump(data, f, indent=2)] and the end of the [with] block, paired
    with the file after them. *)
Definition json_dump (outcome : write_outcome) (data : value)
    : P unit * timestamp_file :=
  match outcome with
  | DumpFails e remains => (P_raise e, FileWith remains)
  | _ => (P_ret tt, FileWith (inr data))
  end.

(** [now_iso] and [now_display] are what the two calls of
    [datetime.datetime.now()] give, formatted by [isoformat()] and by
    [strftime].  The result is paired with the file after the call. *)
Definition update_scan_time (now_iso now_display : str) (outcome : write_outcome)
    (file : timestamp_file) : P value * timestamp_file :=
  let current_time := now_iso ++ py "Z" in
  let data :=
    VDict [(py "last_scan_time", VStr current_time);
           (py "scan_date", VStr now_display)] in
  let '(written, file') :=
    match open_for_writing outcome file with
    | ((_, inr _), _) => json_dump outcome data
    | failed => failed
    end in
  (P_try
     (P_bind written (fun _ =>
      P_bind (P_log (InfoScanTimeUpdated current_time)) (fun _ =>
      P_ret (VStr current_time))))
     (fun e => P_bind (P_log (ErrorUpdateTimestamp e)) (fun _ => P_ret VNone)),
   file').

(** ** youtube_scam_detector.py

    Responses of the comment API are taken in the shape the API documents;
    a response of another shape makes the source raise inside the same
    [try] as a failed request, and is covered by a failing request. *)

Record comment_snippet : Type := {
  publishedAt : str;
  textDisplay : str;
  authorDisplayName : str;
  authorChannelId : option (list (str * value));
  likeCount : Z
}.

Record comment_thread : Type := {
  thread_id : str;
  topLevelComment : comment_snippet
}.

Record comment_threads_response : Type := {
  items : list comment_thread;
  nextPageToken : option str
}.

(** The dictionary the scanner builds for a comment. *)
Record comment : Type := {
  comment_id : str;
  comment_text : str;
  comment_author : str;
  author_channel_id : value;
  published_at : str;
  like_count : Z
}.

(** The client: what the [n]-th request of comment threads of a call gives
    for a video and a page token. *)
Definition youtube_client : Type :=
  nat -> str -> option str -> error + comment_threads_response.

Definition truthy_token (page_token : option str) : bool :=
  match page_token with
  | None => false
  | Some t => truthy t
  end.

(** Body of the loop over the items of a response. *)
Definition comment_step (last_scan_time : value) (comments : list comment)
    (item : comment_thread) : P (list comment) :=
  let comment := topLevelComment item in
  let published_at := publishedAt comment in
  P_bind (if truthy_value last_scan_time
          then str_le_value published_at last_scan_time
          else P_ret false) (fun older =>
  if older then P_ret comments
  else
    P_ret (comments ++
      [{| comment_id := thread_id item;
          comment_text := textDisplay comment;
          comment_author := authorDisplayName comment;
          author_channel_id :=
            dict_get (default [] (authorChannelId comment)) (py "value") (VStr []);
          published_at := published_at;
          like_count := likeCount comment |}])).

Fixpoint for_items (last_scan_time : value) (items : list comment_thread)
    (comments : list comment) : P (list comment) :=
  match items with
  | [] => P_ret comments
  | item :: items' =>
      P_bind (comment_step last_scan_time comments item)
        (for_items last_scan_time items')
  end.

(** [all(comment["published_at"] <= last_scan_time for comment in l)]. *)
Fixpoint all_older (last_scan_time : value) (l : list comment) : P bool :=
  match l with
  | [] => P_ret true
  | comment :: l' =>
      P_bind (str_le_value (published_at comment) last_scan_time) (fun b =>
      if b then all_older last_scan_time l' else P_ret false)
  end.

(** [l[-n:]] for a positive [n]: the last [n] elements. *)
Definition last_n {A} (n : Z) (l : list A) : list A :=
  drop (length l - Z.to_nat n) l.

(** The [while] loop of [get_video_comments]; [pages_left] bounds the
    iterations, which the test on [page_count] already does. *)
Fixpoint fetch_pages (pages_left : nat) (youtube : youtube_client)
    (last_scan_time : value) (video_id : str)
    (page_count : Z) (page_token : option str) (comments : list comment)
    : P (list comment) :=
  match pages_left with
  | O => P_ret comments
  | S pages_left' =>
      if page_count <? config.MAX_PAGES_PER_VIDEO then
        let request_number := Z.to_nat page_count in
        let page_count := page_count + 1 in
        P_bind (([], youtube request_number video_id page_token)
                : P comment_threads_response) (fun response =>
        P_bind (for_items last_scan_time (items response) comments) (fun comments =>
        let page_token := nextPageToken response in
        if negb (truthy_token page_token) then P_ret comments
        else
          P_bind (if truthy_value last_scan_time
                  then all_older last_scan_time
                         (last_n config.MAX_RESULTS_PER_PAGE comments)
                  else P_ret false) (fun stop =>
          if stop then
            P_bind (P_log (InfoRemainingOlder video_id)) (fun _ => P_ret comments)
          else
            fetch_pages pages_left' youtube last_scan_time video_id
              page_count page_token comments)))
      else P_ret comments
  end.

Definition get_video_comments (youtube : option youtube_client)
    (last_scan_time : value) (video_id : str) : P (list comment) :=
  match youtube with
  | None => P_bind (P_log ErrorNoClient) (fun _ => P_ret [])
  | Some client =>
      P_bind (P_log (InfoFetchingComments video_id)) (fun _ =>
      P_try
        (P_bind (fetch_pages (Z.to_nat config.MAX_PAGES_PER_VIDEO) client
                   last_scan_time video_id 0 None []) (fun comments =>
         P_bind (P_log (InfoFetchedComments video_id (len comments))) (fun _ =>
         P_ret comments)))
        (fun e => P_bind (P_log (ErrorFetchingComments video_id e)) (fun _ => P_ret [])))
  end.

Definition is_scam_comment (bip39_words : gset str) (comment_text : str) : P bool :=
  P_bind (of_bip39 (is_potential_seed_phrase comment_text bip39_words))
    (fun contains_seed_phrase =>
  P_bind (if contains_seed_phrase then
            let seed_phrases := extract_seed_phrases comment_text bip39_words in
            if truthy seed_phrases then P_log (InfoPhrasesFound seed_phrases)
            else P_ret tt
          else P_ret tt) (fun _ =>
  P_ret contains_seed_phrase)).

(** The entries of [videos] and of [detected_scams]. *)
Record video : Type := {
  video_id : str;
  video_title : str;
  video_published_at : str
}.

Record scam : Type := {
  scam_id : str;
  scam_text : str;
  scam_author : str;
  scam_video_id : str;
  scam_video_title : str;
  scam_seed_phrases : list str
}.

(** The requests of [get_channel_videos]: the [n]-th look-up of the channel
    gives the uploads play lists of the items of the response (none when
    the response has no items), the [n]-th request of a page of a play list
    gives its items and the token of the next page. *)
Record playlist_item : Type := {
  item_publishedAt : str;
  item_title : str;
  item_videoId : str
}.

Record playlist_items_response : Type := {
  playlist_items : list playlist_item;
  playlist_nextPageToken : option str
}.

Record channel_client : Type := {
  channels_list : nat -> error + list str;
  playlistItems_list : nat -> str -> option str -> error + playlist_items_response
}.

(** [a < b] on strings. *)
Definition str_lt (a b : str) : bool := negb (str_le b a).

(** The loop over the items of a page of the play list: [inl] when the
    function returns from inside the loop, at the date limit. *)
Fixpoint for_playlist_items (date_limit : option str) (its : list playlist_item)
    (videos : list video) : list video + list video :=
  match its with
  | [] => inr videos
  | item :: its' =>
      let published_at := item_publishedAt item in
      if truthy_token date_limit && str_lt published_at (default [] date_limit)
      then inl videos
      else
        for_playlist_items date_limit its'
          (videos ++ [{| video_id := item_videoId item;
                         video_title := item_title item;
                         video_published_at := published_at |}])
  end.

(** The [while True] loop of [get_channel_videos], cut after [fuel]
    iterations: [None] when the loop has not ended by then.  [n] counts the
    iterations made. *)
Fixpoint channel_videos_loop (fuel : nat) (youtube : channel_client)
    (date_limit : option str) (n : nat) (page_token : option str)
    (videos : list video) : P (option (list video)) :=
  match fuel with
  | O => P_ret None
  | S fuel' =>
      P_bind (([], channels_list youtube n) : P (list str)) (fun uploads =>
      match uploads with
      | [] => P_bind (P_log ErrorNoChannelInfo) (fun _ => P_ret (Some []))
      | uploads_playlist_id :: _ =>
          P_bind (([], playlistItems_list youtube n uploads_playlist_id page_token)
                  : P playlist_items_response) (fun response =>
          match for_playlist_items date_limit (playlist_items response) videos with
          | inl videos =>
              P_bind (P_log InfoReachedDateLimit) (fun _ => P_ret (Some videos))
          | inr videos =>
              let page_token := playlist_nextPageToken response in
              if negb (truthy_token page_token) then
                P_bind (P_log (InfoGotVideos (len videos))) (fun _ =>
                P_ret (Some videos))
              else
                channel_videos_loop fuel' youtube date_limit (S n) page_token videos
          end)
      end)
  end.

(** [date_limit_of days] is the ISO time [days] days before now, followed
    by ["Z"]. *)
Definition get_channel_videos (fuel : nat) (youtube : option channel_client)
    (date_limit_of : Z -> str) : P (option (list video)) :=
  match youtube with
  | None => P_bind (P_log ErrorNoClient) (fun _ => P_ret (Some []))
  | Some client =>
      P_bind (P_log InfoFetchingVideos) (fun _ =>
      let date_limit :=
        match config.DAYS_TO_SCAN with
        | Some days => if days =? 0 then None else Some (date_limit_of days)
        | None => None
        end in
      channel_videos_loop fuel client date_limit 0 None [])
  end.

(** [YouTubeScamDetector.__init__]: the word list and the last scan time
    the detector starts with, or [inl code] where the source calls
    [sys.exit(code)] and the call does not return.  The time shown in the
    log message is left out of the record; formatting it cannot raise. *)
Definition detector_init (fs : file_system) (file : timestamp_file)
    : P (Z + gset str * value) :=
  P_bind (of_bip39 (load_bip39_words fs None)) (fun bip39_words =>
  if bool_decide (bip39_words = ∅) then
    P_bind (P_log ErrorCannotLoadWords) (fun _ => P_ret (inl 1))
  else
    P_bind (P_log (InfoLoadedWords (Z.of_nat (size bip39_words)))) (fun _ =>
    P_bind (get_last_scan_time file) (fun last_scan_time =>
    P_bind (if truthy_value last_scan_time
            then P_log (InfoOnlyAfter last_scan_time)
            else P_log InfoFullScan) (fun _ =>
    P_ret (inr (bip39_words, last_scan_time)))))).

(** Body of the loop of [scan_and_delete] over the comments of a video; the
    state is [(scam_comments, detected_scams)]. *)
Definition scan_comment_step (bip39_words : gset str) (v : video)
    (st : Z * list scam) (c : comment) : P (Z * list scam) :=
  let '(scam_comments, detected_scams) := st in
  P_bind (is_scam_comment bip39_words (comment_text c)) (fun flagged =>
  if flagged then
    let scam_comments := scam_comments + 1 in
    P_bind (P_log (WarningScamComment (comment_author c) (comment_id c))) (fun _ =>
    P_bind (P_log (WarningCommentText (slice (comment_text c) 0 100))) (fun _ =>
    let seed_phrases := extract_seed_phrases (comment_text c) bip39_words in
    P_bind (if truthy seed_phrases then P_log (WarningPhrases seed_phrases)
            else P_ret tt) (fun _ =>
    P_ret (scam_comments,
           detected_scams ++
             [{| scam_id := comment_id c;
                 scam_text := comment_text c;
                 scam_author := comment_author c;
                 scam_video_id := video_id v;
                 scam_video_title := video_title v;
                 scam_seed_phrases := seed_phrases |}]))))
  else P_ret (scam_comments, detected_scams)).

Fixpoint scan_comments (bip39_words : gset str) (v : video)
    (comments : list comment) (st : Z * list scam) : P (Z * list scam) :=
  match comments with
  | [] => P_ret st
  | c :: comments' =>
      P_bind (scan_comment_step bip39_words v st c)
        (scan_comments bip39_words v comments')
  end.

(** Body of the loop of [scan_and_delete] over the videos; the state is
    [(total_comments, scam_comments, detected_scams)]. *)
Definition scan_video_step (youtube : option youtube_client)
    (last_scan_time : value) (bip39_words : gset str)
    (st : Z * Z * list scam) (v : video) : P (Z * Z * list scam) :=
  let '(total_comments, scam_comments, detected_scams) := st in
  P_bind (P_log (InfoProcessingVideo (video_title v) (video_id v))) (fun _ =>
  P_bind (get_video_comments youtube last_scan_time (video_id v)) (fun comments =>
  let total_comments := total_comments + len comments in
  P_bind (scan_comments bip39_words v comments (scam_comments, detected_scams))
    (fun '(scam_comments, detected_scams) =>
  P_ret (total_comments, scam_comments, detected_scams)))).

(** The scanning part of [scan_and_delete]: the loop over the videos, from
    the counters at zero and no detected comment. *)
Fixpoint scan_videos_from (youtube : option youtube_client)
    (last_scan_time : value) (bip39_words : gset str)
    (videos : list video) (st : Z * Z * list scam) : P (Z * Z * list scam) :=
  match videos with
  | [] => P_ret st
  | v :: videos' =>
      P_bind (scan_video_step youtube last_scan_time bip39_words st v)
        (scan_videos_from youtube last_scan_time bip39_words videos')
  end.

Definition scan_videos (youtube : option youtube_client)
    (last_scan_time : value) (bip39_words : gset str)
    (videos : list video) : P (Z * Z * list scam) :=
  scan_videos_from youtube last_scan_time bip39_words videos (0, 0, []).

(** ** Notions used to state the properties *)

(** The longest run of dictionary words: [max_consecutive] after the first
    loop of the classifier. *)
Definition max_run (bip39_words : gset str) (words : list str) : Z :=
  snd (fold_left (run_step bip39_words) words (0, 0)).

(** Some window visited by the sliding-window loops passes the test. *)
Definition has_dense_window (bip39_words : gset str) (words : list str) : Prop :=
  exists i, i ∈ range (len words - config.MIN_SEED_WORDS + 1)
            /\ dense (len (filter (fun word => word ∈ bip39_words)
                             (slice words i (i + config.MIN_SEED_WORDS)))) = true.

(** Method 1 of the extractor runs in step with the run counter of the
    classifier: the phrase being collected has the length of the current
    run, and a phrase was emitted only after a run of at least
    [MIN_SEED_WORDS] words. *)
Definition in_step (sp : list str * list str) (sr : Z * Z) : Prop :=
  fst sr = len (fst sp) /\ fst sr <= snd sr
  /\ (snd sp <> [] -> config.MIN_SEED_WORDS <= snd sr).

(** [w] is [line] without its leading and trailing white space. *)
Definition trimmed_of (line w : str) : Prop :=
  exists pre post,
    line = pre ++ w ++ post
    /\ Forall (fun c => isspace c = true) pre
    /\ Forall (fun c => isspace c = true) post
    /\ (forall c, head w = Some c -> isspace c = false)
    /\ (forall c, last w = Some c -> isspace c = false).

(** The tokenizer in the words of the specification: every character that
    is not an ASCII letter or white space becomes a space, the text is split
    on runs of white space, every token is put in lower case, and empty
    tokens are dropped. *)
Definition tokenize (text : str) : list str :=
  filter (fun token => token <> [])
    (lower <$> split ((fun c => if is_ascii_letter c || isspace c then c else 32%N) <$> text)).

(** A phrase of the extractor: a list of dictionary words taken in order
    from the tokens, joined by single spaces. *)
Definition phrase_of (bip39_words : gset str) (words : list str) (p : str) : Prop :=
  exists ws, p = join (py " ") ws /\ Forall (fun word => word ∈ bip39_words) ws
             /\ ws `sublist_of` words /\ config.MIN_SEED_WORDS - 1 <= len ws.

(** A word as the tokenizer produces them. *)
Definition lowercase_word (w : str) : Prop :=
  w <> [] /\ Forall (fun c => is_ascii_lower c = true) w.

(** A comment published after the last scan: the last scan time is a
    string and the comment's time is not at or before it. *)
Definition newer (last_scan_time : value) (c : comment) : Prop :=
  exists t, last_scan_time = VStr t /\ str_le (published_at c) t = false.

(** The dictionary built from an item of a response. *)
Definition to_comment (item : comment_thread) : comment :=
  {| comment_id := thread_id item;
     comment_text := textDisplay (topLevelComment item);
     comment_author := authorDisplayName (topLevelComment item);
     author_channel_id :=
       dict_get (default [] (authorChannelId (topLevelComment item)))
         (py "value") (VStr []);
     published_at := publishedAt (topLevelComment item);
     like_count := likeCount (topLevelComment item) |}.

(** The client answers the requests for a video, from request [n] with
    token [page_token] on, with the given pages, each asked for with the
    token of the page before. *)
Fixpoint serves (youtube : youtube_client) (video_id : str) (n : nat)
    (page_token : option str) (pages : list comment_threads_response) : Prop :=
  match pages with
  | [] => True
  | page :: pages' =>
      youtube n video_id page_token = inr page
      /\ serves youtube video_id (S n) (nextPageToken page) pages'
  end.

(** A client for the examples: the first page holds a comment from January
    and one from March and announces a second page, which holds a comment
    from February and is the last. *)
Definition example_thread (thread published text : string) : comment_thread :=
  {| thread_id := py thread;
     topLevelComment :=
       {| publishedAt := py published; textDisplay := py text;
          authorDisplayName := py "someone"; authorChannelId := None;
          likeCount := 0 |} |}.

Definition example_client : youtube_client :=
  fun n _ page_token =>
    match n, page_token with
    | O, None =>
        inr {| items := [example_thread "c1" "2024-01-10T00:00:00Z" "first";
                         example_thread "c2" "2024-03-10T00:00:00Z" "second"];
               nextPageToken := Some (py "page2") |}
    | S O, Some _ =>
        inr {| items := [example_thread "c3" "2024-02-10T00:00:00Z" "third"];
               nextPageToken := None |}
    | _, _ => inl HttpError
    end.

(** A record of [detected_scams] made for a comment of the video [v] that
    the classifier flags, with the phrases the extractor finds in it. *)
Definition detected_in (bip39_words : gset str) (v : video) (s : scam) : Prop :=
  returns (is_potential_seed_phrase (scam_text s) bip39_words) true
  /\ scam_seed_phrases s = extract_seed_phrases (scam_text s) bip39_words
  /\ scam_video_id s = video_id v
  /\ scam_video_title s = video_title v.

(** The client answers the iterations of [get_channel_videos] from the
    [n]-th on: the channel look-up names [uploads] first, and the play list
    gives the pages, each asked for with the token of the page before. *)
Fixpoint serves_videos (youtube : channel_client) (uploads : str) (n : nat)
    (page_token : option str) (pages : list playlist_items_response) : Prop :=
  match pages with
  | [] => True
  | page :: pages' =>
      (exists others, channels_list youtube n = inr (uploads :: others))
      /\ playlistItems_list youtube n uploads page_token = inr page
      /\ serves_videos youtube uploads (S n) (playlist_nextPageToken page) pages'
  end.

(** The entry of [videos] made from an item of the play list. *)
Definition to_video (item : playlist_item) : video :=
  {| video_id := item_videoId item;
     video_title := item_title item;
     video_published_at := item_publishedAt item |}.

(** Clients for the examples of [get_channel_videos]: one with two pages of
    one video each, one that always announces another page, and one whose
    second look-up of the channel comes back empty. *)
Definition example_page (video title : string) (next : option str)
    : playlist_items_response :=
  {| playlist_items :=
       [{| item_publishedAt := py "2024-01-10T00:00:00Z";
           item_title := py title; item_videoId := py video |}];
     playlist_nextPageToken := next |}.

Definition two_page_channel : channel_client :=
  {| channels_list := fun _ => inr [py "UU1"];
     playlistItems_list := fun n _ _ =>
       match n with
       | O => inr (example_page "v1" "one" (Some (py "p2")))
       | S O => inr (example_page "v2" "two" None)
       | _ => inl HttpError
       end |}.

Definition endless_channel : channel_client :=
  {| channels_list := fun _ => inr [py "UU1"];
     playlistItems_list := fun _ _ _ => inr (example_page "v1" "one" (Some (py "next"))) |}.

Definition vanishing_channel : channel_client :=
  {| channels_list := fun n => match n with O => inr [py "UU1"] | _ => inr [] end;
     playlistItems_list := fun _ _ _ => inr (example_page "v1" "one" (Some (py "p2"))) |}.

(** ** The examples of the specification *)

Definition D12 : gset str :=
  list_to_set (py <$> ["abandon"; "ability"; "able"; "about"; "above"; "absent";
                       "absorb"; "abstract"; "absurd"; "abuse"; "access";
                       "accident"]%string).

Definition twelve_words : str :=
  py "abandon ability able about above absent absorb abstract absurd abuse access accident".

Definition noisy_words : str :=
  py "abandon ability able xyz about above absent absorb abstract absurd abuse access".

Definition eleven_matched : str :=
  py "abandon ability able about above absent absorb abstract absurd abuse access".

(** A word list of three lines, and file systems that hold it, lack it, or
    fail to decode it. *)
Definition wordlist_text : str :=
  py "abandon" ++ [10%N] ++ py "  Ability " ++ [9%N; 10%N] ++ [10%N] ++ py "able".

Definition fs_present : file_system :=
  {| os_path_exists := fun _ => true; read_text := fun _ => inr wordlist_text |}.

Definition fs_missing : file_system :=
  {| os_path_exists := fun _ => false; read_text := fun _ => inl OSError |}.

Definition fs_undecodable : file_system :=
  {| os_path_exists := fun _ => true; read_text := fun _ => inl UnicodeDecodeError |}.

(** * Properties *)

(** ** Characters and the tokenizer *)

(** Boolean range tests on code points, read as arithmetic facts. *)
Ltac char_facts H :=
  rewrite ?Bool.orb_true_iff, ?Bool.andb_true_iff, ?N.leb_le, ?N.eqb_eq in H.

Lemma letter_not_space (c : char) : is_ascii_letter c = true -> isspace c = false.
Proof.
  unfold is_ascii_letter, is_ascii_lower, is_ascii_upper, isspace.
  intros H. apply Bool.not_true_is_false. intros Hs.
  char_facts H. char_facts Hs. lia.
Qed.

Lemma lower_char_letter (c : char) :
  is_ascii_letter c = true -> is_ascii_lower (lower_char c) = true.
Proof.
  unfold is_ascii_letter, lower_char, is_ascii_lower.
  intros H. destruct (is_ascii_upper c) eqn:Hu.
  - unfold is_ascii_upper in Hu. char_facts Hu.
    rewrite Bool.andb_true_iff, !N.leb_le. lia.
  - rewrite Bool.orb_false_r in H. exact H.
Qed.

Lemma sub_non_english_chars (s : str) :
  Forall (fun c => isspace c = false -> is_ascii_letter c = true) (sub_non_english s).
Proof.
  unfold sub_non_english. apply Forall_fmap, Forall_forall. intros c _. simpl.
  destruct (is_ascii_letter c) eqn:Hl; simpl; [auto|].
  destruct (isspace c) eqn:Hs; [congruence|]. intros Hc. discriminate Hc.
Qed.

(** Every word of [split] is non-empty and free of white space; a property
    of all the characters that are not white space carries over to the
    words. *)
Lemma split_from_words (Q : char -> Prop) (s cur : str) :
  Forall Q cur ->
  Forall (fun c => isspace c = false -> Q c) s ->
  Forall (fun w => w <> [] /\ Forall Q w) (split_from cur s).
Proof.
  revert cur. induction s as [|c s IH]; intros cur Hcur Hs; simpl.
  - destruct cur as [|d cur]; simpl; [constructor|].
    constructor; [|constructor]. split.
    + intros E. apply (f_equal (@length _)) in E. rewrite length_app in E.
      simpl in E. lia.
    + apply Forall_app. split; [apply Forall_rev; by inversion Hcur|].
      constructor; [by inversion Hcur|constructor].
  - inversion Hs as [|? ? Hc Hs']; subst.
    destruct (isspace c) eqn:Hsp.
    + destruct cur as [|d cur]; simpl; [apply IH; [constructor|done]|].
      constructor; [|apply IH; [constructor|done]]. split.
      * intros E. apply (f_equal (@length _)) in E. rewrite length_app in E.
        simpl in E. lia.
      * apply Forall_app. split; [apply Forall_rev; by inversion Hcur|].
        constructor; [by inversion Hcur|constructor].
    + apply IH; [constructor; auto|done].
Qed.

Lemma split_sub_letters (text : str) :
  Forall (fun w => w <> [] /\ Forall (fun c => is_ascii_letter c = true) w)
    (split (sub_non_english text)).
Proof.
  apply split_from_words; [constructor|apply sub_non_english_chars].
Qed.

Lemma lstrip_id (c : char) (s : str) : isspace c = false -> lstrip (c :: s) = c :: s.
Proof. intros H. simpl. by rewrite H. Qed.

Lemma strip_letters (w : str) :
  w <> [] -> Forall (fun c => is_ascii_letter c = true) w -> strip w = w.
Proof.
  intros Hne Hw. unfold strip, rstrip.
  assert (Hl : forall v : str, v <> [] ->
            Forall (fun c => is_ascii_letter c = true) v -> lstrip v = v).
  { intros [|c v] Hv Hall; [done|]. apply lstrip_id, letter_not_space.
    by inversion Hall. }
  rewrite (Hl w Hne Hw). rewrite Hl.
  - apply rev_involutive.
  - intros E. apply Hne. rewrite <- (rev_involutive w), E. reflexivity.
  - by apply Forall_rev.
Qed.

(** The guard [if word.strip()] of the comprehension keeps every word. *)
Lemma extract_english_words_eq (text : str) :
  extract_english_words text = lower <$> split (sub_non_english text).
Proof.
  unfold extract_english_words. f_equal.
  pose proof (split_sub_letters text) as H.
  induction H as [|w l [Hne Hw] _ IH]; [reflexivity|].
  rewrite filter_cons_True; [by rewrite IH|].
  rewrite (strip_letters w Hne Hw). by destruct w.
Qed.

Lemma extract_english_words_lower (text : str) :
  Forall (fun w => w <> [] /\ Forall (fun c => is_ascii_lower c = true) w)
    (extract_english_words text).
Proof.
  rewrite extract_english_words_eq. apply Forall_fmap.
  eapply Forall_impl; [apply split_sub_letters|].
  intros w [Hne Hw]. simpl. split.
  - unfold lower. by destruct w.
  - unfold lower. apply Forall_fmap. eapply Forall_impl; [exact Hw|].
    intros c Hc. by apply lower_char_letter.
Qed.

Lemma filter_all {A} (P : A -> Prop) `{forall x, Decision (P x)} (l : list A) :
  Forall P l -> filter P l = l.
Proof.
  induction 1 as [|x l Hx _ IH]; [reflexivity|].
  rewrite filter_cons_True by exact Hx. by rewrite IH.
Qed.

(** ** Arithmetic of the thresholds *)

Lemma len_nonneg {A} (l : list A) : 0 <= len l.
Proof. unfold len. lia. Qed.

Lemma len_app {A} (l k : list A) : len (l ++ k) = len l + len k.
Proof. unfold len. rewrite length_app. lia. Qed.

Lemma sum_from (l : list Z) (a : Z) : fold_left Z.add l a = a + sum l.
Proof.
  unfold sum. revert a. induction l as [|x l IH]; intros a; simpl; [lia|].
  rewrite (IH (a + x)), (IH (0 + x)). lia.
Qed.

Lemma sum_ones {A} (l : list A) : sum ((fun _ => 1) <$> l) = len l.
Proof.
  induction l as [|x l IH]; [reflexivity|].
  change (sum ((fun _ => 1) <$> x :: l))
    with (fold_left Z.add ((fun _ : A => 1) <$> l) (0 + 1)).
  rewrite sum_from, IH. unfold len. simpl length. lia.
Qed.

(** The float the source compares the window count with lies strictly
    between 10 and 11, as the rational 10.8 does: an integer is at least
    the one exactly when it is at least the other. *)
Lemma binary64_window_threshold_between :
  PrimFloat.ltb 10%float binary64_window_threshold = true
  /\ PrimFloat.ltb binary64_window_threshold 11%float = true.
Proof. split; vm_compute; reflexivity. Qed.

(** On the counts of a window the rational test and the binary64 test
    agree. *)
Lemma dense_binary64_agrees (count : Z) :
  0 <= count <= config.MIN_SEED_WORDS -> dense count = dense_binary64 count.
Proof.
  unfold config.MIN_SEED_WORDS. intros H.
  assert (E : count = 0 \/ count = 1 \/ count = 2 \/ count = 3 \/ count = 4
              \/ count = 5 \/ count = 6 \/ count = 7 \/ count = 8 \/ count = 9
              \/ count = 10 \/ count = 11 \/ count = 12) by lia.
  repeat destruct E as [->|E]; try subst count; vm_compute; reflexivity.
Qed.

(** The window test is the exact comparison [count >= 10.8]. *)
Lemma dense_exact (count : Z) :
  dense count = true <-> config.MIN_SEED_WORDS * 9 <= count * 10.
Proof.
  unfold dense, Qge_bool. rewrite Qle_bool_iff. unfold Qle. simpl. lia.
Qed.

Lemma dense_iff (count : Z) : dense count = true <-> 11 <= count.
Proof. rewrite dense_exact. unfold config.MIN_SEED_WORDS. lia. Qed.

(** The density test is the exact comparison [a / b >= 1/2]. *)
Lemma half_le_quotient (a b : Z) :
  0 < b -> Qge_bool (inject_Z a / inject_Z b) (1 # 2) = true <-> b <= 2 * a.
Proof.
  intros Hb. unfold Qge_bool. rewrite Qle_bool_iff.
  destruct b as [|p|p]; try lia.
  unfold Qle, Qdiv, Qmult, Qinv, inject_Z. simpl. lia.
Qed.

Lemma truediv_defined (a b : Z) :
  b <> 0 -> truediv a b = ([], inr (inject_Z a / inject_Z b)%Q).
Proof. intros Hb. unfold truediv. by destruct (Z.eqb_spec b 0). Qed.

Lemma truediv_zero (a : Z) : truediv a 0 = ([], inl ZeroDivisionError).
Proof. reflexivity. Qed.

(** ** Laws of the effect monad used below *)

Lemma bind_pure {A B} (a : A) (k : A -> M B) : (([], inr a) : M A) ≫= k = k a.
Proof. unfold mbind, M_bind, M_bind_def. by destruct (k a). Qed.

Lemma logging_then_ret {A} (r : log_record) (a : A) :
  (logging r;; mret a) = (([r], inr a) : M A).
Proof. reflexivity. Qed.

(** ** The three strategies of the classifier *)

Section Strategies.

Variable bip39_words : gset str.

Abbreviation hits := (filter (fun word : str => word ∈ bip39_words)).
Abbreviation MIN := config.MIN_SEED_WORDS.

Lemma run_step_inv (st : Z * Z) (word : str) :
  0 <= fst st <= snd st ->
  0 <= fst (run_step bip39_words st word) <= snd (run_step bip39_words st word)
  /\ snd st <= snd (run_step bip39_words st word).
Proof.
  destruct st as [c m]. unfold run_step. simpl. intros H.
  case_bool_decide; simpl; lia.
Qed.

Lemma run_fold_inv (words : list str) (st : Z * Z) :
  0 <= fst st <= snd st ->
  0 <= fst (fold_left (run_step bip39_words) words st)
    <= snd (fold_left (run_step bip39_words) words st)
  /\ snd st <= snd (fold_left (run_step bip39_words) words st).
Proof.
  revert st. induction words as [|w words IH]; intros st H; simpl; [lia|].
  destruct (run_step_inv st w H) as [H1 H2].
  destruct (IH _ H1) as [H3 H4]. split; [exact H3|lia].
Qed.

(** A run of members raises the counter by its length. *)
Lemma run_fold_members (run : list str) (st : Z * Z) :
  Forall (fun word => word ∈ bip39_words) run ->
  0 <= fst st <= snd st ->
  fst st + len run <= snd (fold_left (run_step bip39_words) run st).
Proof.
  intros Hrun. revert st. induction Hrun as [|w run Hw _ IH]; intros st H; simpl.
  - unfold len. simpl. lia.
  - destruct (run_step_inv st w H) as [H1 _].
    specialize (IH _ H1). destruct st as [c m]. unfold run_step in *.
    rewrite bool_decide_eq_true_2 in * by exact Hw. simpl in *.
    unfold len in *. simpl. lia.
Qed.

Lemma max_run_contiguous (pre run post : list str) :
  Forall (fun word => word ∈ bip39_words) run ->
  len run <= max_run bip39_words (pre ++ run ++ post).
Proof.
  intros Hrun. unfold max_run. rewrite !fold_left_app.
  assert (H0 : 0 <= fst (0, 0) <= snd (0, 0)) by (simpl; lia).
  destruct (run_fold_inv pre _ H0) as [H1 _].
  pose proof (run_fold_members run _ Hrun H1) as H2.
  destruct (run_fold_inv run _ H1) as [H3 _].
  destruct (run_fold_inv post _ H3) as [_ H4]. lia.
Qed.

Lemma hits_app (l k : list str) : hits (l ++ k) = hits l ++ hits k.
Proof. apply filter_app. Qed.

Lemma hits_le (l : list str) : len (hits l) <= len l.
Proof. unfold len. pose proof (length_filter (fun w : str => w ∈ bip39_words) l). lia. Qed.

Lemma hits_all (l : list str) :
  Forall (fun word => word ∈ bip39_words) l -> hits l = l.
Proof.
  apply filter_all.
Qed.

(** The sliding-window loop of the classifier finds a window exactly when
    one of the indices it visits has a dense window. *)
Lemma dense_window_loop_Some (words : list str) (indices : list Z) :
  is_Some (dense_window_loop words bip39_words indices) <->
  exists i, i ∈ indices /\ dense (len (hits (slice words i (i + MIN)))) = true.
Proof.
  induction indices as [|i indices IH]; simpl.
  - split; [intros [w Hw]; discriminate|intros (i & Hi & _); by apply elem_of_nil in Hi].
  - rewrite sum_ones.
    destruct (dense (len (hits (slice words i (i + MIN))))) eqn:Hd.
    + split; [intros _; exists i; split; [left|exact Hd]|intros _; eauto].
    + rewrite IH. split.
      * intros (j & Hj & Hdj). exists j. split; [by right|exact Hdj].
      * intros (j & Hj & Hdj). apply elem_of_cons in Hj as [->|Hj]; [congruence|eauto].
Qed.

(** The classifier, one case per exit of the source. *)
Lemma is_potential_seed_phrase_cases (text : str) :
  let words := extract_english_words text in
  is_potential_seed_phrase text bip39_words =
    if len words <? MIN then ([], inr false)
    else if len (hits words) <? MIN then ([], inr false)
    else if max_run bip39_words words >=? MIN then ([InfoConsecutive (max_run bip39_words words)], inr true)
    else match dense_window_loop words bip39_words (range (len words - MIN + 1)) with
         | Some window => ([InfoDenseWindow window], inr true)
         | None =>
             if len words <=? 2 * len (hits words)
             then ([InfoHighDensity (hits words)], inr true)
             else ([], inr false)
         end.
Proof.
  intros words. unfold is_potential_seed_phrase. fold words.
  destruct (Z.ltb_spec (len words) MIN) as [|Hw]; [reflexivity|].
  destruct (Z.ltb_spec (len (hits words)) MIN) as [|Hh]; [reflexivity|].
  unfold max_run.
  destruct (fold_left (run_step bip39_words) words (0, 0)) as [c m]. simpl snd.
  destruct (m >=? MIN); [reflexivity|].
  destruct (dense_window_loop _ _ _); [reflexivity|].
  assert (Hge : (len (hits words) >=? MIN) = true) by (apply Z.geb_le; lia).
  rewrite Hge. unfold config.MIN_SEED_WORDS in Hw.
  rewrite truediv_defined by lia.
  rewrite bind_pure.
  pose proof (half_le_quotient (len (hits words)) (len words)) as Hq.
  destruct (Qge_bool _ _); destruct (Z.leb_spec (len words) (2 * len (hits words)));
    try reflexivity.
  - assert (len words <= 2 * len (hits words)) by (apply Hq; [lia|reflexivity]). lia.
  - assert (false = true) by (apply Hq; lia). discriminate.
Qed.

Lemma is_potential_seed_phrase_true (text : str) :
  let words := extract_english_words text in
  returns (is_potential_seed_phrase text bip39_words) true <->
  MIN <= len words /\ MIN <= len (hits words)
  /\ (MIN <= max_run bip39_words words \/ has_dense_window bip39_words words
      \/ len words <= 2 * len (hits words)).
Proof.
  intros words. rewrite is_potential_seed_phrase_cases. fold words.
  unfold returns, has_dense_window. rewrite <- dense_window_loop_Some.
  destruct (Z.ltb_spec (len words) MIN); [simpl; split; [discriminate|lia]|].
  destruct (Z.ltb_spec (len (hits words)) MIN); [simpl; split; [discriminate|lia]|].
  destruct (max_run bip39_words words >=? MIN) eqn:Hr.
  { apply Z.geb_le in Hr. simpl. split; [intros _; repeat split; auto|reflexivity]. }
  assert (max_run bip39_words words < MIN).
  { destruct (Z.lt_ge_cases (max_run bip39_words words) MIN) as [|Hge]; [done|].
    apply Z.geb_le in Hge. congruence. }
  destruct (dense_window_loop _ _ _) as [window|] eqn:Hw.
  { simpl. split; [intros _; repeat split; eauto|reflexivity]. }
  destruct (Z.leb_spec (len words) (2 * len (hits words))); simpl.
  - split; [intros _; repeat split; auto|reflexivity].
  - split; [discriminate|].
    intros (_ & _ & [?|[[w Hs]|?]]); [lia|discriminate|lia].
Qed.

(** The classifier always returns a boolean. *)
Lemma is_potential_seed_phrase_returns (text : str) :
  exists (l : list log_record) (b : bool),
    is_potential_seed_phrase text bip39_words = (l, inr b).
Proof.
  rewrite is_potential_seed_phrase_cases.
  repeat match goal with
         | |- context [if ?c then _ else _] => destruct c
         | |- context [match ?o with Some _ => _ | None => _ end] => destruct o
         end; eauto.
Qed.

Lemma is_potential_seed_phrase_false (text : str) :
  returns (is_potential_seed_phrase text bip39_words) false <->
  ~ returns (is_potential_seed_phrase text bip39_words) true.
Proof.
  destruct (is_potential_seed_phrase_returns text) as (l & b & E).
  unfold returns. rewrite E. simpl. destruct b; split; congruence.
Qed.

End Strategies.

(** ** The extractor against the classifier *)

Section Extractor.

Variable bip39_words : gset str.

Abbreviation hits := (filter (fun word : str => word ∈ bip39_words)).
Abbreviation MIN := config.MIN_SEED_WORDS.

Lemma phrase_step_in_step (sp : list str * list str) (sr : Z * Z) (word : str) :
  in_step sp sr ->
  in_step (phrase_step bip39_words sp word) (run_step bip39_words sr word).
Proof.
  destruct sp as [current_phrase seed_phrases], sr as [c m].
  unfold in_step, phrase_step, run_step. simpl. intros (Hc & Hm & He).
  case_bool_decide; simpl.
  - rewrite len_app. unfold len at 2. simpl. repeat split; [lia|lia|].
    intros Hne. specialize (He Hne). lia.
  - pose proof (len_nonneg current_phrase).
    split; [reflexivity|]. split; [lia|].
    destruct (len current_phrase >=? MIN) eqn:Hl; [|exact He].
    apply Z.geb_le in Hl. intros _. lia.
Qed.

Lemma phrase_fold_in_step (words : list str) (sp : list str * list str) (sr : Z * Z) :
  in_step sp sr ->
  in_step (fold_left (phrase_step bip39_words) words sp)
          (fold_left (run_step bip39_words) words sr).
Proof.
  revert sp sr. induction words as [|w words IH]; intros sp sr H; simpl; [exact H|].
  apply IH, phrase_step_in_step, H.
Qed.

(** Method 2 adds a phrase exactly at the indices with a dense window. *)
Lemma window_fold_nonempty (words : list str) (indices : list Z) (seed_phrases : list str) :
  fold_left (window_step words bip39_words) indices seed_phrases <> [] <->
  seed_phrases <> [] \/
  exists i, i ∈ indices /\ dense (len (hits (slice words i (i + MIN)))) = true.
Proof.
  revert seed_phrases. induction indices as [|i indices IH]; intros seed_phrases; simpl.
  - split; [auto|]. intros [H|(i & Hi & _)]; [exact H|by apply elem_of_nil in Hi].
  - rewrite IH. unfold window_step at 1.
    destruct (dense (len (hits (slice words i (i + MIN))))) eqn:Hd.
    + split; [intros _; right; exists i; split; [left|exact Hd]|].
      intros _. left. by destruct seed_phrases.
    + split.
      * intros [H|(j & Hj & Hdj)]; [by left|]. right. exists j. split; [by right|done].
      * intros [H|(j & Hj & Hdj)]; [by left|].
        apply elem_of_cons in Hj as [->|Hj]; [congruence|]. right. eauto.
Qed.

Lemma seed_phrases_of_nonempty (words : list str) :
  seed_phrases_of words bip39_words <> [] ->
  MIN <= max_run bip39_words words \/ has_dense_window bip39_words words.
Proof.
  unfold seed_phrases_of, max_run, has_dense_window.
  assert (H0 : in_step ([], []) (0, 0)) by (unfold in_step, len; simpl; split; [reflexivity|split; [lia|done]]).
  pose proof (phrase_fold_in_step words _ _ H0) as H.
  destruct (fold_left (phrase_step bip39_words) words ([], [])) as [cp sp].
  destruct (fold_left (run_step bip39_words) words (0, 0)) as [c m].
  destruct H as (Hc & Hm & He). simpl in *.
  rewrite window_fold_nonempty. intros [Hne|Hw]; [left|by right].
  destruct (len cp >=? MIN) eqn:Hl.
  - apply Z.geb_le in Hl. lia.
  - by apply He.
Qed.

Lemma elements_list_to_set_nil (l : list str) :
  elements (list_to_set l : gset str) = [] <-> l = [].
Proof.
  split; [|intros ->; apply elements_empty].
  intros E. destruct l as [|x l]; [reflexivity|].
  assert (Hx : x ∈ elements (list_to_set (x :: l) : gset str)).
  { apply elem_of_elements, elem_of_list_to_set. left. }
  rewrite E in Hx. by apply elem_of_nil in Hx.
Qed.

Lemma extract_seed_phrases_nonempty (text : str) :
  extract_seed_phrases text bip39_words <> [] <->
  MIN <= len (extract_english_words text)
  /\ seed_phrases_of (extract_english_words text) bip39_words <> [].
Proof.
  unfold extract_seed_phrases.
  destruct (Z.ltb_spec (len (extract_english_words text)) MIN).
  - split; [done|lia].
  - rewrite elements_list_to_set_nil. split; [intros Hne; split; [lia|exact Hne]|by intros [_ Hne]].
Qed.

End Extractor.

(** ** Enlarging the dictionary *)

Section Monotone.

Variables D D' : gset str.
Hypothesis sub : D ⊆ D'.

Lemma hits_mono (l : list str) :
  len (filter (fun word => word ∈ D) l) <= len (filter (fun word => word ∈ D') l).
Proof.
  unfold len. induction l as [|w l IH]; [reflexivity|].
  rewrite !filter_cons. destruct (decide (w ∈ D)) as [Hw|Hw].
  - rewrite decide_True by (apply sub, Hw). simpl. lia.
  - destruct (decide (w ∈ D')); simpl; lia.
Qed.

Lemma run_fold_mono (words : list str) (st st' : Z * Z) :
  fst st <= fst st' -> snd st <= snd st' -> 0 <= fst st' ->
  fst (fold_left (run_step D) words st) <= fst (fold_left (run_step D') words st')
  /\ snd (fold_left (run_step D) words st) <= snd (fold_left (run_step D') words st').
Proof.
  revert st st'. induction words as [|w words IH]; intros [c m] [c' m']; simpl;
    intros Hc Hm H0; [lia|].
  apply IH; unfold run_step; repeat case_bool_decide; simpl; try lia.
  all: exfalso; auto.
Qed.

Lemma max_run_mono (words : list str) : max_run D words <= max_run D' words.
Proof. unfold max_run. apply run_fold_mono; simpl; lia. Qed.

Lemma has_dense_window_mono (words : list str) :
  has_dense_window D words -> has_dense_window D' words.
Proof.
  intros (i & Hi & Hd). exists i. split; [exact Hi|].
  apply dense_iff. apply dense_iff in Hd.
  pose proof (hits_mono (slice words i (i + config.MIN_SEED_WORDS))). lia.
Qed.

End Monotone.

(** ** Trimming and the loader *)

Lemma lstrip_spec (s : str) :
  exists pre, s = pre ++ lstrip s
              /\ Forall (fun c => isspace c = true) pre
              /\ (forall c, head (lstrip s) = Some c -> isspace c = false).
Proof.
  induction s as [|c s (pre & E & Hpre & Hhd)]; simpl.
  - exists []. repeat split; [constructor|discriminate].
  - destruct (isspace c) eqn:Hc.
    + exists (c :: pre). simpl. rewrite <- E. repeat split; [by constructor|exact Hhd].
    + exists []. repeat split; [constructor|]. simpl. intros d [= <-]. exact Hc.
Qed.

Lemma lstrip_skip (pre s : str) :
  Forall (fun c => isspace c = true) pre -> lstrip (pre ++ s) = lstrip s.
Proof. induction 1 as [|c pre Hc _ IH]; simpl; [reflexivity|by rewrite Hc]. Qed.

Lemma lstrip_stop (s : str) :
  (forall c, head s = Some c -> isspace c = false) -> lstrip s = s.
Proof. destruct s as [|c s]; [reflexivity|]. intros H. apply lstrip_id, H. reflexivity. Qed.

Lemma head_rev {A} (l : list A) : head (rev l) = last l.
Proof.
  induction l as [|x l IH] using rev_ind; [reflexivity|].
  rewrite rev_app_distr, last_snoc. reflexivity.
Qed.

Lemma strip_trimmed (line : str) : trimmed_of line (strip line).
Proof.
  unfold strip, rstrip.
  destruct (lstrip_spec line) as (pre & E & Hpre & Hhd).
  destruct (lstrip_spec (rev (lstrip line))) as (pre' & E' & Hpre' & Hhd').
  set (t := lstrip line) in *. set (u := lstrip (rev t)) in *.
  assert (Et : t = rev u ++ rev pre').
  { rewrite <- rev_app_distr, <- E'. symmetry. apply rev_involutive. }
  exists pre, (rev pre'). repeat split.
  - rewrite E at 1. by rewrite Et.
  - exact Hpre.
  - by apply Forall_rev.
  - intros c Hc. apply Hhd. rewrite Et. destruct (rev u); [discriminate|exact Hc].
  - intros c Hc. apply Hhd'. rewrite <- head_rev in Hc.
    by rewrite rev_involutive in Hc.
Qed.

Lemma trimmed_of_strip (line w : str) : trimmed_of line w -> w <> [] -> strip line = w.
Proof.
  intros (pre & post & -> & Hpre & Hpost & Hhd & Hlast) Hne.
  unfold strip, rstrip. rewrite lstrip_skip by exact Hpre.
  rewrite (lstrip_stop (w ++ post)).
  - rewrite rev_app_distr, lstrip_skip by (by apply Forall_rev).
    rewrite lstrip_stop; [apply rev_involutive|].
    intros c Hc. apply Hlast. by rewrite <- head_rev.
  - intros c Hc. apply Hhd. destruct w; [done|exact Hc].
Qed.

Lemma strip_nonempty_truthy (line : str) : truthy (strip line) = true <-> strip line <> [].
Proof. destruct (strip line); simpl; split; congruence. Qed.

(** The words the loader keeps: the trimmed lines that are not empty. *)
Lemma loaded_words (content w : str) :
  w ∈ (list_to_set
         (strip <$> filter (fun line => truthy (strip line) = true) (file_lines content))
       : gset str)
  <-> w <> [] /\ exists line, line ∈ file_lines content /\ trimmed_of line w.
Proof.
  rewrite elem_of_list_to_set, list_elem_of_fmap. split.
  - intros (line & -> & Hin). apply list_elem_of_filter in Hin as [Ht Hin].
    split; [by apply strip_nonempty_truthy|]. exists line. split; [exact Hin|].
    apply strip_trimmed.
  - intros (Hne & line & Hin & Htr). pose proof (trimmed_of_strip _ _ Htr Hne) as E.
    exists line. split; [by rewrite E|]. apply list_elem_of_filter. split; [|exact Hin].
    apply strip_nonempty_truthy. by rewrite E.
Qed.

(** The three outcomes of the loader. *)
Lemma load_bip39_words_spec_aux (fs : file_system) (filepath : option str) :
  let path := default config.BIP39_WORDLIST_FILE filepath in
  (os_path_exists fs path = false ->
   load_bip39_words fs filepath = ([ErrorWordlistMissing path], inr ∅))
  /\ (forall e : exception,
        os_path_exists fs path = true -> read_text fs path = inl e ->
        load_bip39_words fs filepath = ([ErrorWordlistLoad e], inr ∅))
  /\ (forall content : str,
        os_path_exists fs path = true -> read_text fs path = inr content ->
        exists words : gset str,
          load_bip39_words fs filepath
          = ([InfoWordlistLoaded (Z.of_nat (size words))], inr words)
          /\ forall w : str,
               w ∈ words <->
               w <> [] /\ exists line, line ∈ file_lines content /\ trimmed_of line w).
Proof.
  intros path. unfold load_bip39_words. fold path. unfold open_read.
  split; [|split].
  - intros ->. reflexivity.
  - intros e -> ->. reflexivity.
  - intros content -> ->. eexists. split; [reflexivity|].
    intros w. apply loaded_words.
Qed.

Lemma elem_of_range (i n : Z) : i ∈ range n <-> 0 <= i < n.
Proof.
  unfold range. rewrite list_elem_of_fmap. split.
  - intros (k & -> & Hk). apply elem_of_seq in Hk. lia.
  - intros H. exists (Z.to_nat i). split; [lia|]. apply elem_of_seq. lia.
Qed.

Lemma len_window {A} (l : list A) (i : Z) :
  i ∈ range (len l - config.MIN_SEED_WORDS + 1) ->
  len (slice l i (i + config.MIN_SEED_WORDS)) = config.MIN_SEED_WORDS.
Proof.
  rewrite elem_of_range. unfold slice, len, config.MIN_SEED_WORDS.
  rewrite length_take, length_drop. lia.
Qed.

(** ** Dictionary words in runs and windows *)





(** * The properties of the specification *)




(** C2 (as stated, refuted): on the noisy twelve-token text the classifier
    does not return [True]. *)
Lemma noisy_words_not_classified :
  ~ returns (is_potential_seed_phrase noisy_words D12) true.
Proof. vm_compute. discriminate. Qed.

(** C2 (amended): with [MIN_SEED_WORDS = 12] and the twelve-word
    dictionary, the noisy text has twelve tokens of which eleven are in the
    dictionary; the classifier returns [False] at its fast reject on the
    number of dictionary words, without a log record; the only window of
    the text does pass the dense-window test, and the extractor returns the
    eleven matched words as its single phrase. *)
Theorem noisy_words_rejected :
  config.MIN_SEED_WORDS = 12
  /\ len (extract_english_words noisy_words) = 12
  /\ len (filter (fun word => word ∈ D12) (extract_english_words noisy_words)) = 11
  /\ is_potential_seed_phrase noisy_words D12 = ([], inr false)
  /\ dense_window_loop (extract_english_words noisy_words) D12
       (range (len (extract_english_words noisy_words) - config.MIN_SEED_WORDS + 1))
     = Some (extract_english_words noisy_words)
  /\ extract_seed_phrases noisy_words D12 = [eleven_matched].
Proof. repeat split; vm_compute; reflexivity. Qed.

(** C3: a text whose tokens contain exactly [MIN_SEED_WORDS - 1] dictionary
    words, wherever they stand, is classified [False]; a text whose tokens
    contain a contiguous run of [MIN_SEED_WORDS] dictionary words is
    classified [True]. *)
Theorem boundary_classification (text : str) (bip39_words : gset str) :
  (len (filter (fun word => word ∈ bip39_words) (extract_english_words text))
   = config.MIN_SEED_WORDS - 1 ->
   returns (is_potential_seed_phrase text bip39_words) false)
  /\ (forall pre run post : list str,
        extract_english_words text = pre ++ run ++ post ->
        Forall (fun word => word ∈ bip39_words) run ->
        len run = config.MIN_SEED_WORDS ->
        returns (is_potential_seed_phrase text bip39_words) true).
Proof.
  split.
  - intros Hhits. apply is_potential_seed_phrase_false.
    rewrite is_potential_seed_phrase_true. lia.
  - intros pre run post E Hrun Hlen. apply is_potential_seed_phrase_true.
    rewrite E.
    pose proof (max_run_contiguous bip39_words pre run post Hrun) as Hmax.
    rewrite !filter_app, !len_app, (hits_all _ _ Hrun).
    pose proof (len_nonneg pre). pose proof (len_nonneg post).
    pose proof (len_nonneg (filter (fun word => word ∈ bip39_words) pre)).
    pose proof (len_nonneg (filter (fun word => word ∈ bip39_words) post)).
    repeat split; [lia|lia|left; lia].
Qed.

Lemma boundary_classification_witness :
  (len (filter (fun word => word ∈ D12) (extract_english_words noisy_words))
   = config.MIN_SEED_WORDS - 1
   /\ returns (is_potential_seed_phrase noisy_words D12) false)
  /\ (extract_english_words twelve_words = [] ++ extract_english_words twelve_words ++ []
      /\ Forall (fun word => word ∈ D12) (extract_english_words twelve_words)
      /\ len (extract_english_words twelve_words) = config.MIN_SEED_WORDS
      /\ returns (is_potential_seed_phrase twelve_words D12) true).
Proof.
  assert (H1 : len (filter (fun word => word ∈ D12) (extract_english_words noisy_words))
               = config.MIN_SEED_WORDS - 1) by (vm_compute; reflexivity).
  assert (H2 : extract_english_words twelve_words
               = [] ++ extract_english_words twelve_words ++ [])
    by (vm_compute; reflexivity).
  assert (H3 : Forall (fun word => word ∈ D12) (extract_english_words twelve_words)).
  { apply (bool_decide_unpack _). vm_compute. exact I. }
  assert (H4 : len (extract_english_words twelve_words) = config.MIN_SEED_WORDS)
    by (vm_compute; reflexivity).
  split.
  - split; [exact H1|]. exact (proj1 (boundary_classification noisy_words D12) H1).
  - split; [exact H2|]. split; [exact H3|]. split; [exact H4|].
    exact (proj2 (boundary_classification twelve_words D12) _ _ _ H2 H3 H4).
Defined.

(** C4: with the empty dictionary the classifier returns [False] on every
    text, and logs nothing. *)
Theorem empty_dictionary_never_matches (text : str) :
  is_potential_seed_phrase text ∅ = ([], inr false).
Proof.
  rewrite is_potential_seed_phrase_cases.
  destruct (_ <? _); [reflexivity|].
  assert (E : forall (D : gset str) (l : list str),
             D = ∅ -> filter (fun word => word ∈ D) l = []).
  { intros D l ->. induction l as [|w l IH]; [reflexivity|].
    rewrite filter_cons_False by set_solver. exact IH. }
  rewrite (E ∅ _ eq_refl). reflexivity.
Qed.

(** C5: with [MIN_SEED_WORDS = 12] and the twelve-word dictionary, the
    twelve words joined by spaces are classified [True] by the
    contiguous-run strategy (the log record of that exit is the only one
    emitted), and the extractor returns exactly that string as its only
    phrase. *)
Theorem twelve_words_detected :
  config.MIN_SEED_WORDS = 12
  /\ is_potential_seed_phrase twelve_words D12 = ([InfoConsecutive 12], inr true)
  /\ extract_seed_phrases twelve_words D12 = [twelve_words].
Proof. repeat split; vm_compute; reflexivity. Qed.

(** C7: the loader never raises.  When the path does not exist it logs an
    error and returns the empty set; when opening, reading or decoding the
    file raises, it logs the error and returns the empty set; otherwise it
    returns the set of the trimmed lines of the file that are not empty,
    each kept as it stands in its line (no change of case). *)
Theorem load_bip39_words_spec (fs : file_system) (filepath : option str) :
  let path := default config.BIP39_WORDLIST_FILE filepath in
  (os_path_exists fs path = false ->
   load_bip39_words fs filepath = ([ErrorWordlistMissing path], inr ∅))
  /\ (forall e : exception,
        os_path_exists fs path = true -> read_text fs path = inl e ->
        load_bip39_words fs filepath = ([ErrorWordlistLoad e], inr ∅))
  /\ (forall content : str,
        os_path_exists fs path = true -> read_text fs path = inr content ->
        exists words : gset str,
          load_bip39_words fs filepath
          = ([InfoWordlistLoaded (Z.of_nat (size words))], inr words)
          /\ forall w : str,
               w ∈ words <->
               w <> [] /\ exists line, line ∈ file_lines content /\ trimmed_of line w).
Proof.
  intros path. unfold load_bip39_words. fold path. unfold open_read.
  split; [|split].
  - intros ->. reflexivity.
  - intros e -> ->. reflexivity.
  - intros content -> ->. eexists. split; [reflexivity|].
    intros w. apply loaded_words.
Qed.

Lemma load_bip39_words_spec_witness :
  load_bip39_words fs_missing None
  = ([ErrorWordlistMissing config.BIP39_WORDLIST_FILE], inr ∅)
  /\ load_bip39_words fs_undecodable None
     = ([ErrorWordlistLoad UnicodeDecodeError], inr ∅)
  /\ exists words : gset str,
       load_bip39_words fs_present None
       = ([InfoWordlistLoaded (Z.of_nat (size words))], inr words)
       /\ (py "Ability" ∈ words <->
           py "Ability" <> []
           /\ exists line, line ∈ file_lines wordlist_text
                           /\ trimmed_of line (py "Ability")).
Proof.
  split; [|split].
  - apply (proj1 (load_bip39_words_spec fs_missing None)). reflexivity.
  - apply (proj1 (proj2 (load_bip39_words_spec fs_undecodable None)) UnicodeDecodeError);
      reflexivity.
  - destruct (proj2 (proj2 (load_bip39_words_spec fs_present None)) wordlist_text
                eq_refl eq_refl) as (words & E & Hw).
    exists words. split; [exact E|apply Hw].
Defined.

(** C8: every token of the tokenizer is a non-empty string of lowercase
    ASCII letters, and the tokenizer computes what the specification
    describes: characters other than ASCII letters and white space become
    spaces, the text is split on white-space runs, tokens are lowercased and
    empty tokens dropped. *)
Theorem tokens_are_lowercase_words (text : str) :
  Forall (fun token => token <> [] /\ Forall (fun c => is_ascii_lower c = true) token)
    (extract_english_words text)
  /\ extract_english_words text = tokenize text.
Proof.
  split; [apply extract_english_words_lower|].
  pose proof (extract_english_words_lower text) as H.
  rewrite extract_english_words_eq in *. unfold tokenize.
  change ((fun c => if is_ascii_letter c || isspace c then c else 32%N) <$> text)
    with (sub_non_english text).
  symmetry. apply filter_all. eapply Forall_impl; [exact H|].
  by intros w [Hne _].
Qed.

(** C9: no exception escapes.  The tokenizer and the extractor use no
    operation that can raise and are total; the classifier, whose density
    division can raise, returns a boolean on every text and dictionary: once
    the first fast reject is passed the number of tokens is not zero and the
    division is defined. *)
Theorem no_exception_escapes (text : str) (bip39_words : gset str) :
  (exists words : list str, extract_english_words text = words)
  /\ (exists (l : list log_record) (b : bool),
        is_potential_seed_phrase text bip39_words = (l, inr b))
  /\ (exists phrases : list str, extract_seed_phrases text bip39_words = phrases)
  /\ (~ len (extract_english_words text) < config.MIN_SEED_WORDS ->
      len (extract_english_words text) <> 0
      /\ exists density : Q,
           truediv (len (filter (fun word => word ∈ bip39_words)
                           (extract_english_words text)))
                   (len (extract_english_words text))
           = ([], inr density)).
Proof.
  split; [eauto|]. split; [apply is_potential_seed_phrase_returns|]. split; [eauto|].
  unfold config.MIN_SEED_WORDS. intros H. split; [lia|].
  eexists. apply truediv_defined. lia.
Qed.

Lemma no_exception_escapes_witness :
  ~ len (extract_english_words twelve_words) < config.MIN_SEED_WORDS
  /\ len (extract_english_words twelve_words) <> 0.
Proof.
  assert (H : ~ len (extract_english_words twelve_words) < config.MIN_SEED_WORDS).
  { vm_compute. discriminate. }
  split; [exact H|].
  exact (proj1 (proj2 (proj2 (proj2 (no_exception_escapes twelve_words D12))) H)).
Defined.

(** C10: the classifier is monotone in the dictionary: a text classified
    [True] with a dictionary is classified [True] with every larger one. *)
Theorem classification_monotone (text : str) (D D' : gset str) :
  D ⊆ D' ->
  returns (is_potential_seed_phrase text D) true ->
  returns (is_potential_seed_phrase text D') true.
Proof.
  intros Hsub. rewrite !is_potential_seed_phrase_true.
  intros (Hlen & Hhits & Hs).
  pose proof (hits_mono D D' Hsub (extract_english_words text)) as Hm.
  split; [exact Hlen|]. split; [lia|].
  destruct Hs as [Hr|[Hw|Hd]].
  - left. pose proof (max_run_mono D D' Hsub (extract_english_words text)). lia.
  - right. left. by apply (has_dense_window_mono D D' Hsub).
  - right. right. lia.
Qed.

Lemma classification_monotone_witness :
  D12 ⊆ D12 ∪ {[py "xyz"]}
  /\ returns (is_potential_seed_phrase twelve_words D12) true
  /\ returns (is_potential_seed_phrase twelve_words (D12 ∪ {[py "xyz"]})) true.
Proof.
  assert (H1 : D12 ⊆ D12 ∪ {[py "xyz"]}) by apply union_subseteq_l.
  assert (H2 : returns (is_potential_seed_phrase twelve_words D12) true)
    by (vm_compute; reflexivity).
  split; [exact H1|]. split; [exact H2|].
  exact (classification_monotone twelve_words D12 (D12 ∪ {[py "xyz"]}) H1 H2).
Defined.

(** ** Further examples *)

(** A digit, a CJK character and an ideographic space all separate words;
    upper case is folded. *)
Example tokens_of_mixed_text :
  extract_english_words (py "ab1cd" ++ [20013%N] ++ py "EF" ++ [12288%N] ++ py "g-h")
  = [py "ab"; py "cd"; py "ef"; py "g"; py "h"].
Proof. vm_compute. reflexivity. Qed.

(** Text without letters has no tokens, and is not classified. *)
Example no_letters_no_tokens :
  extract_english_words (py "2048 / 12 = ...") = []
  /\ is_potential_seed_phrase (py "2048 / 12 = ...") D12 = ([], inr false)
  /\ extract_seed_phrases (py "2048 / 12 = ...") D12 = [].
Proof. repeat split; vm_compute; reflexivity. Qed.

(** The loader keeps the case of the words of the file. *)
Example loader_keeps_case :
  exists words : gset str,
    load_bip39_words fs_present None = ([InfoWordlistLoaded 3], inr words)
    /\ (py "Ability" ∈ words) /\ (py "ability" ∉ words)
    /\ (py "abandon" ∈ words) /\ (py "able" ∈ words).
Proof.
  eexists. split; [vm_compute; reflexivity|].
  repeat split; apply (bool_decide_unpack _); vm_compute; exact I.
Qed.

(** Thirteen tokens, twelve of them dictionary words around one stranger:
    no run of twelve, and the first window is dense. *)
Example dense_window_path :
  is_potential_seed_phrase
    (py "abandon ability able about above absent xyz absorb abstract absurd abuse access accident")
    D12
  = ([InfoDenseWindow
        (py <$> ["abandon"; "ability"; "able"; "about"; "above"; "absent"; "xyz";
                 "absorb"; "abstract"; "absurd"; "abuse"; "access"]%string)],
     inr true).
Proof. vm_compute. reflexivity. Qed.

(** Twelve dictionary words alternating with strangers: no run, no dense
    window, density exactly one half, so the density fallback fires; one
    more stranger brings the density to 12/25 and the text is rejected. *)
Example density_path :
  fst (is_potential_seed_phrase
    (py "abandon x ability x able x about x above x absent x absorb x abstract x absurd x abuse x access x accident x")
    D12)
  = [InfoHighDensity
       (py <$> ["abandon"; "ability"; "able"; "about"; "above"; "absent"; "absorb";
                "abstract"; "absurd"; "abuse"; "access"; "accident"]%string)]
  /\ is_potential_seed_phrase
    (py "abandon x ability x able x about x above x absent x absorb x abstract x absurd x abuse x access x accident x y")
    D12
  = ([], inr false).
Proof. split; vm_compute; reflexivity. Qed.

(** * Further properties of the detector *)

(** ** The tokenizer on concatenations *)

Lemma split_from_sep (cur s t : str) (c : char) :
  isspace c = true ->
  split_from cur (s ++ c :: t) = split_from cur s ++ split t.
Proof.
  intros Hc. revert cur. induction s as [|d s IH]; intros cur; simpl.
  - rewrite Hc. by destruct (truthy cur).
  - destruct (isspace d); [|apply IH].
    destruct (truthy cur); simpl; by rewrite IH.
Qed.

Lemma split_from_word (cur w : str) :
  Forall (fun c => isspace c = false) w ->
  split_from cur w = if truthy (rev w ++ cur) then [rev (rev w ++ cur)] else [].
Proof.
  revert cur. induction w as [|c w IH]; intros cur Hw; simpl; [reflexivity|].
  inversion Hw as [|? ? Hc Hw']; subst. rewrite Hc, IH by exact Hw'.
  simpl. by rewrite <- !app_assoc.
Qed.

Lemma split_word (w : str) :
  w <> [] -> Forall (fun c => isspace c = false) w -> split w = [w].
Proof.
  intros Hne Hw. unfold split. rewrite split_from_word by exact Hw.
  rewrite app_nil_r, rev_involutive.
  destruct (rev w) eqn:E; [|reflexivity].
  exfalso. apply Hne. by rewrite <- (rev_involutive w), E.
Qed.

Lemma split_join (ws : list str) :
  Forall (fun w => w <> [] /\ Forall (fun c => isspace c = false) w) ws ->
  split (join (py " ") ws) = ws.
Proof.
  induction 1 as [|w ws [Hne Hw] Hws IH]; [reflexivity|].
  destruct ws as [|w2 ws]; [by apply split_word|].
  change (join (py " ") (w :: w2 :: ws))
    with (w ++ 32%N :: join (py " ") (w2 :: ws)).
  unfold split at 1. rewrite split_from_sep by reflexivity.
  fold (split w). rewrite split_word by assumption. by rewrite IH.
Qed.

Lemma sub_non_english_id (s : str) :
  Forall (fun c => is_ascii_letter c || isspace c = true) s -> sub_non_english s = s.
Proof.
  unfold sub_non_english. induction 1 as [|c s Hc _ IH]; [reflexivity|].
  rewrite fmap_cons, IH, Hc. reflexivity.
Qed.

Lemma join_chars (P : char -> Prop) (ws : list str) :
  P 32%N -> Forall (Forall P) ws -> Forall P (join (py " ") ws).
Proof.
  intros Hsp. induction 1 as [|w ws Hw Hws IH]; [constructor|].
  destruct ws as [|w2 ws]; [exact Hw|].
  change (join (py " ") (w :: w2 :: ws))
    with (w ++ 32%N :: join (py " ") (w2 :: ws)).
  apply Forall_app. split; [exact Hw|]. by constructor.
Qed.

Lemma lower_lowercase (w : str) :
  Forall (fun c => is_ascii_lower c = true) w -> lower w = w.
Proof.
  unfold lower. induction 1 as [|c w Hc _ IH]; [reflexivity|].
  rewrite fmap_cons, IH. f_equal. unfold lower_char.
  destruct (is_ascii_upper c) eqn:Hu; [|reflexivity].
  unfold is_ascii_lower in Hc. unfold is_ascii_upper in Hu.
  char_facts Hc. char_facts Hu. lia.
Qed.

Lemma lowercase_is_letter (c : char) :
  is_ascii_lower c = true -> is_ascii_letter c = true.
Proof. unfold is_ascii_letter. by intros ->. Qed.

(** Words of lowercase letters joined by single spaces tokenize to
    themselves. *)
Lemma extract_english_words_join (ws : list str) :
  Forall (fun w => w <> [] /\ Forall (fun c => is_ascii_lower c = true) w) ws ->
  extract_english_words (join (py " ") ws) = ws.
Proof.
  intros Hws. rewrite extract_english_words_eq.
  rewrite sub_non_english_id.
  - rewrite split_join.
    + induction Hws as [|w ws [_ Hw] _ IH]; [reflexivity|].
      by rewrite fmap_cons, IH, lower_lowercase.
    + eapply Forall_impl; [exact Hws|]. intros w [Hne Hw]. split; [exact Hne|].
      eapply Forall_impl; [exact Hw|]. intros c Hc.
      by apply letter_not_space, lowercase_is_letter.
  - apply join_chars; [reflexivity|].
    eapply Forall_impl; [exact Hws|]. intros w [_ Hw].
    eapply Forall_impl; [exact Hw|]. intros c Hc.
    by rewrite (lowercase_is_letter c Hc).
Qed.

(** X1: tokenizing the tokens of a text, joined by single spaces, gives the
    same tokens again. *)
Theorem tokens_of_joined_tokens (text : str) :
  extract_english_words (join (py " ") (extract_english_words text))
  = extract_english_words text.
Proof. apply extract_english_words_join, extract_english_words_lower. Qed.

(** X2: a character that is not an ASCII letter separates words: the tokens
    of [s ++ c :: t] are the tokens of [s] followed by the tokens of [t]. *)
Theorem non_letter_separates (s t : str) (c : char) :
  is_ascii_letter c = false ->
  extract_english_words (s ++ c :: t)
  = extract_english_words s ++ extract_english_words t.
Proof.
  intros Hc. rewrite !extract_english_words_eq. unfold sub_non_english.
  rewrite fmap_app, fmap_cons, Hc. simpl orb.
  unfold split at 1.
  rewrite split_from_sep by (destruct (isspace c) eqn:E; [exact E|reflexivity]).
  by rewrite fmap_app.
Qed.

Lemma non_letter_separates_witness :
  is_ascii_letter 49%N = false
  /\ extract_english_words (py "abandon" ++ 49%N :: py "Ability")
     = extract_english_words (py "abandon") ++ extract_english_words (py "Ability").
Proof.
  split; [reflexivity|]. apply (non_letter_separates (py "abandon") (py "Ability") 49%N).
  reflexivity.
Defined.

(** Every token takes a character, and two tokens a separator between
    them. *)
Lemma split_from_count (cur s : str) :
  2 * len (split_from cur s) <= len s + (if truthy cur then 2 else 1).
Proof.
  unfold len. revert cur. induction s as [|c s IH]; intros cur; simpl length.
  - destruct (truthy cur); simpl; lia.
  - simpl split_from. destruct (isspace c).
    + specialize (IH []). simpl in IH. destruct (truthy cur); simpl length; lia.
    + specialize (IH (c :: cur)). simpl in IH. destruct (truthy cur); lia.
Qed.

Lemma tokens_count (text : str) :
  2 * len (extract_english_words text) <= len text + 1.
Proof.
  rewrite extract_english_words_eq.
  pose proof (split_from_count [] (sub_non_english text)) as H. simpl in H.
  unfold len in *. unfold sub_non_english in H.
  rewrite length_fmap in *. rewrite length_fmap in H. exact H.
Qed.

(** X3: a text of fewer than [2 * MIN_SEED_WORDS - 1] characters (23) is
    never flagged and yields no phrase, whatever the dictionary. *)
Theorem short_text_never_flagged (text : str) (bip39_words : gset str) :
  len text < 2 * config.MIN_SEED_WORDS - 1 ->
  is_potential_seed_phrase text bip39_words = ([], inr false)
  /\ extract_seed_phrases text bip39_words = [].
Proof.
  intros Hlen. pose proof (tokens_count text) as Hc.
  assert (Hlt : (len (extract_english_words text) <? config.MIN_SEED_WORDS) = true)
    by (apply Z.ltb_lt; lia).
  split.
  - rewrite is_potential_seed_phrase_cases. by rewrite Hlt.
  - unfold extract_seed_phrases. by rewrite Hlt.
Qed.

Lemma short_text_never_flagged_witness :
  len (py "a b c d e f g h i j k") < 2 * config.MIN_SEED_WORDS - 1
  /\ is_potential_seed_phrase (py "a b c d e f g h i j k")
       (list_to_set (py <$> ["a"; "b"; "c"; "d"; "e"; "f"; "g"; "h"; "i"; "j"; "k"]%string))
     = ([], inr false).
Proof.
  assert (H : len (py "a b c d e f g h i j k") < 2 * config.MIN_SEED_WORDS - 1)
    by (vm_compute; reflexivity).
  split; [exact H|]. exact (proj1 (short_text_never_flagged _ _ H)).
Defined.

(** ** Runs, windows and phrases *)

Section Phrases.

Variable bip39_words : gset str.

Abbreviation member := (fun word : str => word ∈ bip39_words).
Abbreviation MIN := config.MIN_SEED_WORDS.

(** After the first loop of the classifier, the counter is the length of
    the run of dictionary words that ends the list, and the maximum is the
    length of some run of the list. *)
Lemma run_fold_blocks (words : list str) :
  (exists pre run, words = pre ++ run /\ Forall member run
     /\ len run = fst (fold_left (run_step bip39_words) words (0, 0)))
  /\ (exists pre run post, words = pre ++ run ++ post /\ Forall member run
        /\ len run = snd (fold_left (run_step bip39_words) words (0, 0))).
Proof.
  induction words as [|w words IH] using rev_ind.
  - split; [exists [], []|exists [], [], []]; repeat split; constructor.
  - rewrite fold_left_app. simpl.
    destruct (fold_left (run_step bip39_words) words (0, 0)) as [c m].
    destruct IH as [(pre & run & E & Hrun & Hc) (pre' & run' & post' & E' & Hrun' & Hm)].
    simpl in Hc, Hm. unfold run_step. case_bool_decide as Hw; simpl.
    + assert (Hnew : Forall member (run ++ [w]))
        by (apply Forall_app; split; [done|by constructor]).
      split.
      * exists pre, (run ++ [w]). rewrite E, <- app_assoc. repeat split; [done|].
        rewrite len_app. unfold len at 2. simpl. lia.
      * destruct (Z.max_spec m (c + 1)) as [[Hlt ->]|[Hge ->]].
        -- exists pre, (run ++ [w]), []. rewrite app_nil_r, E, <- app_assoc.
           repeat split; [done|]. rewrite len_app. unfold len at 2. simpl. lia.
        -- exists pre', run', (post' ++ [w]). rewrite E' at 1.
           rewrite <- !app_assoc. by repeat split.
    + split.
      * exists (words ++ [w]), []. rewrite app_nil_r. repeat split; constructor.
      * exists pre', run', (post' ++ [w]). rewrite E' at 1.
        rewrite <- !app_assoc. by repeat split.
Qed.

(** A run of [MIN_SEED_WORDS] dictionary words fills a window. *)
Lemma block_dense_window (pre run post : list str) :
  Forall member run -> MIN <= len run ->
  has_dense_window bip39_words (pre ++ run ++ post).
Proof.
  intros Hrun Hlen. exists (len pre). split.
  - apply elem_of_range. rewrite !len_app.
    pose proof (len_nonneg pre). pose proof (len_nonneg post). lia.
  - apply dense_iff. unfold slice.
    replace (Z.to_nat (len pre + MIN - len pre)) with 12%nat
      by (unfold config.MIN_SEED_WORDS; lia).
    replace (Z.to_nat (len pre)) with (length pre) by (unfold len; lia).
    rewrite drop_app_length.
    rewrite take_app_le by (unfold len, config.MIN_SEED_WORDS in Hlen; lia).
    rewrite filter_all by (by apply Forall_take).
    unfold len. rewrite length_take.
    unfold len, config.MIN_SEED_WORDS in Hlen. lia.
Qed.

Lemma max_run_dense_window (words : list str) :
  MIN <= max_run bip39_words words -> has_dense_window bip39_words words.
Proof.
  intros Hmax. destruct (run_fold_blocks words) as [_ (pre & run & post & E & Hrun & Hm)].
  rewrite E. apply block_dense_window; [exact Hrun|].
  unfold max_run in Hmax. lia.
Qed.

(** *** Method 1 of the extractor *)

Lemma phrase_fold_members (run : list str) (cp sp : list str) :
  Forall member run ->
  fold_left (phrase_step bip39_words) run (cp, sp) = (cp ++ run, sp).
Proof.
  intros Hrun. revert cp. induction Hrun as [|w run Hw _ IH]; intros cp; simpl.
  - by rewrite app_nil_r.
  - rewrite bool_decide_eq_true_2 by exact Hw. rewrite IH. by rewrite <- app_assoc.
Qed.

Lemma phrase_fold_kept (l : list str) (st : list str * list str) (p : str) :
  p ∈ snd st -> p ∈ snd (fold_left (phrase_step bip39_words) l st).
Proof.
  revert st. induction l as [|w l IH]; intros [cp sp] Hp; simpl; [exact Hp|].
  apply IH. case_bool_decide; simpl; [exact Hp|].
  destruct (len cp >=? MIN); [|exact Hp]. apply elem_of_app. by left.
Qed.

Lemma phrase_fold_after_stranger (l : list str) (st : list str * list str) :
  (forall w, last l = Some w -> w ∉ bip39_words) ->
  l <> [] ->
  fst (fold_left (phrase_step bip39_words) l st) = [].
Proof.
  intros Hlast Hne. destruct l as [|x l] using rev_ind; [done|].
  rewrite fold_left_app. simpl.
  destruct (fold_left (phrase_step bip39_words) l st) as [cp sp].
  simpl. rewrite bool_decide_eq_false_2; [reflexivity|].
  apply Hlast. apply last_snoc.
Qed.

Lemma window_fold_kept (words : list str) (indices : list Z) (sp : list str) (p : str) :
  p ∈ sp -> p ∈ fold_left (window_step words bip39_words) indices sp.
Proof.
  revert sp. induction indices as [|i indices IH]; intros sp Hp; simpl; [exact Hp|].
  apply IH. unfold window_step. destruct (dense _); [|exact Hp].
  apply elem_of_app. by left.
Qed.

Lemma phrase_fold_sound (words l done cp sp : list str) :
  words = done ++ l ->
  (exists pre, done = pre ++ cp) -> Forall member cp ->
  Forall (phrase_of bip39_words words) sp ->
  (exists pre, words = pre ++ fst (fold_left (phrase_step bip39_words) l (cp, sp)))
  /\ Forall member (fst (fold_left (phrase_step bip39_words) l (cp, sp)))
  /\ Forall (phrase_of bip39_words words) (snd (fold_left (phrase_step bip39_words) l (cp, sp))).
Proof.
  revert done cp sp. induction l as [|w l IH]; intros done cp sp E [pre Hpre] Hcp Hsp.
  - simpl. rewrite app_nil_r in E. subst. eauto.
  - simpl. case_bool_decide as Hw.
    + apply (IH (done ++ [w])).
      * by rewrite <- app_assoc.
      * exists pre. by rewrite Hpre, <- app_assoc.
      * apply Forall_app. split; [done|by constructor].
      * exact Hsp.
    + apply (IH (done ++ [w])).
      * by rewrite <- app_assoc.
      * exists (done ++ [w]). by rewrite app_nil_r.
      * constructor.
      * destruct (len cp >=? MIN) eqn:Hlen; [|exact Hsp].
        apply Z.geb_le in Hlen. apply Forall_app. split; [exact Hsp|].
        constructor; [|constructor]. exists cp. repeat split; [done| |lia].
        rewrite E, Hpre. apply sublist_inserts_r, sublist_inserts_l. reflexivity.
Qed.

Lemma window_fold_sound (words : list str) (indices : list Z) (sp : list str) :
  Forall (phrase_of bip39_words words) sp ->
  Forall (phrase_of bip39_words words) (fold_left (window_step words bip39_words) indices sp).
Proof.
  revert sp. induction indices as [|i indices IH]; intros sp Hsp; simpl; [exact Hsp|].
  apply IH. unfold window_step.
  destruct (dense _) eqn:Hd; [|exact Hsp].
  apply Forall_app. split; [exact Hsp|]. constructor; [|constructor].
  eexists. split; [reflexivity|]. split; [|split].
  - apply Forall_forall. intros w Hw. by apply list_elem_of_filter in Hw as [Hw _].
  - etrans; [apply sublist_filter|]. unfold slice.
    etrans; [apply sublist_take|apply sublist_drop].
  - apply dense_iff in Hd. etrans; [|exact Hd]. unfold config.MIN_SEED_WORDS. lia.
Qed.

Lemma seed_phrases_of_sound (words : list str) :
  Forall (phrase_of bip39_words words) (seed_phrases_of words bip39_words).
Proof.
  unfold seed_phrases_of.
  destruct (phrase_fold_sound words words [] [] [] eq_refl) as (Hpre & Hcp & Hsp);
    [by exists []|constructor|constructor|].
  destruct (fold_left (phrase_step bip39_words) words ([], [])) as [cp sp].
  simpl in *. apply window_fold_sound.
  destruct (len cp >=? MIN) eqn:Hlen; [|exact Hsp].
  apply Z.geb_le in Hlen. apply Forall_app. split; [exact Hsp|].
  constructor; [|constructor]. exists cp. repeat split; [done| |lia].
  destruct Hpre as [pre ->]. apply sublist_inserts_l. reflexivity.
Qed.

End Phrases.

(** The windows the sliding-window loops visit, counted by their
    dictionary words. *)
Lemma dense_window_loop_windows (bip39_words : gset str) (words : list str) :
  is_Some (dense_window_loop words bip39_words
             (range (len words - config.MIN_SEED_WORDS + 1))) <->
  exists i,
    0 <= i <= len words - config.MIN_SEED_WORDS
    /\ 11 <= len (filter (fun word => word ∈ bip39_words)
                    (slice words i (i + config.MIN_SEED_WORDS))).
Proof.
  rewrite dense_window_loop_Some. split; intros (i & Hi & Hd); exists i.
  - apply elem_of_range in Hi. apply dense_iff in Hd. split; [lia|exact Hd].
  - split; [apply elem_of_range; lia|by apply dense_iff].
Qed.

Lemma window_fold_emits (bip39_words : gset str) (words : list str)
    (indices : list Z) (sp : list str) (i : Z) :
  i ∈ indices ->
  dense (len (filter (fun word => word ∈ bip39_words)
                (slice words i (i + config.MIN_SEED_WORDS)))) = true ->
  join (py " ") (filter (fun word => word ∈ bip39_words)
                   (slice words i (i + config.MIN_SEED_WORDS)))
    ∈ fold_left (window_step words bip39_words) indices sp.
Proof.
  revert sp. induction indices as [|j indices IH]; intros sp Hi Hd.
  - by apply elem_of_nil in Hi.
  - simpl. apply elem_of_cons in Hi as [<-|Hi]; [|by apply IH].
    apply window_fold_kept. unfold window_step. rewrite Hd.
    apply elem_of_app. right. left.
Qed.

(** C6 (as stated, refuted): the only window of the noisy twelve-token text
    has twelve tokens and eleven dictionary words, and the classifier does
    not leave by the dense-window strategy. *)
Lemma dense_window_not_reached :
  len (slice (extract_english_words noisy_words) 0 (0 + config.MIN_SEED_WORDS)) = 12
  /\ 11 <= len (filter (fun word => word ∈ D12)
                  (slice (extract_english_words noisy_words) 0
                     (0 + config.MIN_SEED_WORDS)))
  /\ ~ exists window,
        is_potential_seed_phrase noisy_words D12 = ([InfoDenseWindow window], inr true).
Proof.
  split; [vm_compute; reflexivity|]. split; [vm_compute; discriminate|].
  intros [window E]. vm_compute in E. discriminate E.
Qed.

(** C6 (amended): the window threshold [MIN_SEED_WORDS * 0.9] and the
    density threshold [0.5] (on the quotient of dictionary words by tokens;
    the source has no [MIN_SEED_WORDS * 0.5]) are compared exactly, without
    flooring.  With [MIN_SEED_WORDS = 12], the classifier returns [True] by
    the dense-window strategy exactly when the tokens hold at least twelve
    dictionary words, no contiguous run of twelve, and some window of
    twelve consecutive tokens with at least eleven dictionary words; it
    returns [True] by the density strategy exactly when the tokens hold at
    least twelve dictionary words, every window holds at most ten, and
    twice the dictionary words are at least the tokens.  Every window the
    loops visit has twelve tokens and the test on its count has the same
    outcome on binary64 floats as on rationals; the extractor returns the
    matched words of every window with at least eleven dictionary words,
    and nothing when every window holds at most ten. *)
Theorem thresholds_not_floored (text : str) (bip39_words : gset str) :
  let words := extract_english_words text in
  let bip39_matches := filter (fun word => word ∈ bip39_words) words in
  let max_consecutive := snd (fold_left (run_step bip39_words) words (0, 0)) in
  let matched i :=
    filter (fun word => word ∈ bip39_words)
      (slice words i (i + config.MIN_SEED_WORDS)) in
  ((exists window,
      is_potential_seed_phrase text bip39_words = ([InfoDenseWindow window], inr true))
   <-> config.MIN_SEED_WORDS <= len bip39_matches
       /\ max_consecutive < config.MIN_SEED_WORDS
       /\ exists i, 0 <= i <= len words - config.MIN_SEED_WORDS /\ 11 <= len (matched i))
  /\ (is_potential_seed_phrase text bip39_words
      = ([InfoHighDensity bip39_matches], inr true)
      <-> config.MIN_SEED_WORDS <= len bip39_matches
          /\ (forall i, 0 <= i <= len words - config.MIN_SEED_WORDS ->
                        len (matched i) <= 10)
          /\ len words <= 2 * len bip39_matches)
  /\ (forall i, 0 <= i <= len words - config.MIN_SEED_WORDS ->
        len (slice words i (i + config.MIN_SEED_WORDS)) = 12
        /\ dense (len (matched i)) = dense_binary64 (len (matched i))
        /\ (11 <= len (matched i) ->
            join (py " ") (matched i) ∈ extract_seed_phrases text bip39_words))
  /\ ((forall i, 0 <= i <= len words - config.MIN_SEED_WORDS -> len (matched i) <= 10) ->
      extract_seed_phrases text bip39_words = []).
Proof.
  intros words bip39_matches max_consecutive matched.
  subst matched. cbv beta.
  pose proof (dense_window_loop_windows bip39_words words) as Hwin.
  pose proof (max_run_dense_window bip39_words words) as Hrun.
  pose proof (hits_le bip39_words words) as Hle.
  fold bip39_matches in Hle.
  change (snd (fold_left (run_step bip39_words) words (0, 0)))
    with (max_run bip39_words words) in max_consecutive.
  assert (Hnone :
    (forall i, 0 <= i <= len words - config.MIN_SEED_WORDS ->
       len (filter (fun word => word ∈ bip39_words)
              (slice words i (i + config.MIN_SEED_WORDS))) <= 10)
    <-> dense_window_loop words bip39_words
          (range (len words - config.MIN_SEED_WORDS + 1)) = None).
  { split.
    - intros Hall. destruct (dense_window_loop _ _ _) eqn:E; [|reflexivity].
      destruct (proj1 Hwin) as (i & Hi & Hd); [eauto|]. specialize (Hall i Hi). lia.
    - intros E i Hi.
      destruct (Z.le_gt_cases
                  (len (filter (fun word => word ∈ bip39_words)
                          (slice words i (i + config.MIN_SEED_WORDS)))) 10)
        as [|Hgt]; [done|].
      destruct (proj2 Hwin) as [w Hw]; [exists i; split; [exact Hi|lia]|]. congruence. }
  split; [|split; [|split]].
  - rewrite is_potential_seed_phrase_cases. fold words. fold bip39_matches.
    destruct (Z.ltb_spec (len words) config.MIN_SEED_WORDS).
    { split; [intros [w [=]]|lia]. }
    destruct (Z.ltb_spec (len bip39_matches) config.MIN_SEED_WORDS).
    { split; [intros [w [=]]|lia]. }
    destruct (max_run bip39_words words >=? config.MIN_SEED_WORDS) eqn:Hr.
    { apply Z.geb_le in Hr. split; [intros [w [=]]|]. unfold max_consecutive. lia. }
    assert (max_run bip39_words words < config.MIN_SEED_WORDS).
    { destruct (Z.lt_ge_cases (max_run bip39_words words) config.MIN_SEED_WORDS)
        as [|Hge]; [done|]. apply Z.geb_le in Hge. congruence. }
    destruct (dense_window_loop _ _ _) as [window|] eqn:Hloop.
    + split; [intros _|intros _; by exists window].
      split; [done|]. split; [done|]. apply Hwin. eauto.
    + split.
      * destruct (len words <=? 2 * len bip39_matches); intros [w [=]].
      * intros (_ & _ & Hex). apply Hwin in Hex as [w Hw]. discriminate.
  - rewrite is_potential_seed_phrase_cases. fold words. fold bip39_matches.
    rewrite Hnone.
    destruct (Z.ltb_spec (len words) config.MIN_SEED_WORDS).
    { split; [intros [=]|lia]. }
    destruct (Z.ltb_spec (len bip39_matches) config.MIN_SEED_WORDS).
    { split; [intros [=]|lia]. }
    destruct (max_run bip39_words words >=? config.MIN_SEED_WORDS) eqn:Hr.
    { apply Z.geb_le in Hr. split; [intros [=]|].
      intros (_ & Hloop & _). destruct (Hrun Hr) as (i & Hi & Hd).
      assert (is_Some (dense_window_loop words bip39_words
                         (range (len words - config.MIN_SEED_WORDS + 1))))
        as [w Hw] by (apply dense_window_loop_Some; eauto).
      congruence. }
    destruct (dense_window_loop _ _ _) as [window|] eqn:Hloop.
    + split; [intros [=]|intros (_ & [=] & _)].
    + destruct (Z.leb_spec (len words) (2 * len bip39_matches)).
      * split; [intros _; by repeat split|reflexivity].
      * split; [intros [=]|lia].
  - intros i Hi.
    assert (Hin : i ∈ range (len words - config.MIN_SEED_WORDS + 1))
      by (apply elem_of_range; lia).
    pose proof (len_window words i Hin) as Hlen.
    split; [exact Hlen|]. split.
    + apply dense_binary64_agrees.
      pose proof (hits_le bip39_words (slice words i (i + config.MIN_SEED_WORDS))) as H.
      pose proof (len_nonneg (filter (fun word => word ∈ bip39_words)
                                (slice words i (i + config.MIN_SEED_WORDS)))).
      lia.
    + intros Hd. unfold extract_seed_phrases. fold words.
      destruct (Z.ltb_spec (len words) config.MIN_SEED_WORDS); [lia|].
      apply elem_of_elements, elem_of_list_to_set. unfold seed_phrases_of.
      destruct (fold_left (phrase_step bip39_words) words ([], [])) as [cp sp].
      apply window_fold_emits; [exact Hin|by apply dense_iff].
  - intros Hall. destruct (extract_seed_phrases text bip39_words) eqn:E; [reflexivity|].
    exfalso.
    assert (Hne : extract_seed_phrases text bip39_words <> []) by (rewrite E; discriminate).
    apply extract_seed_phrases_nonempty in Hne as [_ Hsp]. fold words in Hsp.
    assert (Hd : has_dense_window bip39_words words).
    { destruct (seed_phrases_of_nonempty _ _ Hsp) as [Hr|Hd]; [by apply Hrun|exact Hd]. }
    destruct Hd as (i & Hi & Hd). apply elem_of_range in Hi. apply dense_iff in Hd.
    specialize (Hall i ltac:(lia)).  lia.
Qed.

Lemma thresholds_not_floored_witness :
  exists window,
    is_potential_seed_phrase
      (py "abandon ability able about above absent xyz absorb abstract absurd abuse access accident")
      D12
    = ([InfoDenseWindow window], inr true).
Proof.
  apply (proj2 (proj1 (thresholds_not_floored
    (py "abandon ability able about above absent xyz absorb abstract absurd abuse access accident")
    D12))).
  split; [vm_compute; discriminate|]. split; [vm_compute; reflexivity|].
  exists 0. split; [vm_compute; split; discriminate|vm_compute; discriminate].
Defined.

(** X4: [max_consecutive], as the first loop of the classifier leaves it,
    is the length of the longest contiguous run of dictionary words among
    the tokens: some run has that length and no run is longer. *)
Theorem max_run_longest (bip39_words : gset str) (words : list str) :
  (exists pre run post,
     words = pre ++ run ++ post
     /\ Forall (fun word => word ∈ bip39_words) run
     /\ len run = snd (fold_left (run_step bip39_words) words (0, 0)))
  /\ (forall pre run post,
        words = pre ++ run ++ post ->
        Forall (fun word => word ∈ bip39_words) run ->
        len run <= snd (fold_left (run_step bip39_words) words (0, 0))).
Proof.
  split; [apply run_fold_blocks|].
  intros pre run post -> Hrun. by apply (max_run_contiguous bip39_words).
Qed.

Lemma max_run_longest_witness :
  extract_english_words noisy_words
  = [py "abandon"] ++ [py "ability"; py "able"]
    ++ (py <$> ["xyz"; "about"; "above"; "absent"; "absorb"; "abstract"; "absurd";
                "abuse"; "access"]%string)
  /\ Forall (fun word => word ∈ D12) [py "ability"; py "able"]
  /\ len [py "ability"; py "able"]
     <= snd (fold_left (run_step D12) (extract_english_words noisy_words) (0, 0)).
Proof.
  assert (E : extract_english_words noisy_words
    = [py "abandon"] ++ [py "ability"; py "able"]
      ++ (py <$> ["xyz"; "about"; "above"; "absent"; "absorb"; "abstract"; "absurd";
                  "abuse"; "access"]%string)) by (vm_compute; reflexivity).
  assert (Hrun : Forall (fun word => word ∈ D12) [py "ability"; py "able"]).
  { apply (bool_decide_unpack _). vm_compute. exact I. }
  split; [exact E|]. split; [exact Hrun|].
  exact (proj2 (max_run_longest D12 (extract_english_words noisy_words)) _ _ _ E Hrun).
Defined.

(** X5: the classifier returns [True] exactly when the tokens contain at
    least [MIN_SEED_WORDS] dictionary words and one of the three strategies
    holds: a contiguous run of at least [MIN_SEED_WORDS] dictionary words, a
    window of [MIN_SEED_WORDS] consecutive tokens with at least eleven
    dictionary words, or at least half of all tokens being dictionary
    words. *)
Theorem classification_strategies (text : str) (bip39_words : gset str) :
  let words := extract_english_words text in
  let bip39_matches := filter (fun word => word ∈ bip39_words) words in
  returns (is_potential_seed_phrase text bip39_words) true <->
  config.MIN_SEED_WORDS <= len bip39_matches
  /\ ((exists pre run post,
         words = pre ++ run ++ post
         /\ Forall (fun word => word ∈ bip39_words) run
         /\ config.MIN_SEED_WORDS <= len run)
      \/ (exists i,
            0 <= i <= len words - config.MIN_SEED_WORDS
            /\ 11 <= len (filter (fun word => word ∈ bip39_words)
                            (slice words i (i + config.MIN_SEED_WORDS))))
      \/ len words <= 2 * len bip39_matches).
Proof.
  intros words bip39_matches. rewrite is_potential_seed_phrase_true.
  fold words. fold bip39_matches.
  pose proof (hits_le bip39_words words) as Hle. fold bip39_matches in Hle.
  assert (Hrun : config.MIN_SEED_WORDS <= max_run bip39_words words <->
                 exists pre run post,
                   words = pre ++ run ++ post
                   /\ Forall (fun word => word ∈ bip39_words) run
                   /\ config.MIN_SEED_WORDS <= len run).
  { split.
    - intros Hmax. destruct (run_fold_blocks bip39_words words)
        as [_ (pre & run & post & E & Hr & Hm)].
      exists pre, run, post. repeat split; [done|done|]. unfold max_run in Hmax. lia.
    - intros (pre & run & post & E & Hr & Hm).
      pose proof (max_run_contiguous bip39_words pre run post Hr). rewrite <- E in *. lia. }
  assert (Hwin : has_dense_window bip39_words words <->
                 exists i,
                   0 <= i <= len words - config.MIN_SEED_WORDS
                   /\ 11 <= len (filter (fun word => word ∈ bip39_words)
                                   (slice words i (i + config.MIN_SEED_WORDS)))).
  { unfold has_dense_window. split; intros (i & Hi & Hd); exists i.
    - apply elem_of_range in Hi. apply dense_iff in Hd. split; [lia|exact Hd].
    - split; [apply elem_of_range; lia|by apply dense_iff]. }
  rewrite Hrun, Hwin. split; [tauto|]. intros [? ?]. split; [lia|tauto].
Qed.

(** X6: the contiguous-run strategy never decides alone: a run of
    [MIN_SEED_WORDS] dictionary words fills the window that starts with it,
    so the classifier returns [True] exactly when the tokens contain at
    least [MIN_SEED_WORDS] dictionary words and some window holds at least
    eleven of them or at least half of all tokens are dictionary words. *)
Theorem classification_by_windows (text : str) (bip39_words : gset str) :
  let words := extract_english_words text in
  let bip39_matches := filter (fun word => word ∈ bip39_words) words in
  returns (is_potential_seed_phrase text bip39_words) true <->
  config.MIN_SEED_WORDS <= len bip39_matches
  /\ ((exists i,
         0 <= i <= len words - config.MIN_SEED_WORDS
         /\ 11 <= len (filter (fun word => word ∈ bip39_words)
                         (slice words i (i + config.MIN_SEED_WORDS))))
      \/ len words <= 2 * len bip39_matches).
Proof.
  intros words bip39_matches. rewrite is_potential_seed_phrase_true.
  fold words. fold bip39_matches.
  pose proof (hits_le bip39_words words) as Hle. fold bip39_matches in Hle.
  pose proof (max_run_dense_window bip39_words words) as Hrun.
  assert (Hwin : has_dense_window bip39_words words <->
                 exists i,
                   0 <= i <= len words - config.MIN_SEED_WORDS
                   /\ 11 <= len (filter (fun word => word ∈ bip39_words)
                                   (slice words i (i + config.MIN_SEED_WORDS)))).
  { unfold has_dense_window. split; intros (i & Hi & Hd); exists i.
    - apply elem_of_range in Hi. apply dense_iff in Hd. split; [lia|exact Hd].
    - split; [apply elem_of_range; lia|by apply dense_iff]. }
  rewrite <- Hwin. split; [tauto|]. intros [? ?]. split; [lia|tauto].
Qed.

(** X7: the extractor returns no phrase twice, and every phrase it returns
    is a list of at least [MIN_SEED_WORDS - 1] dictionary words, taken in
    order from the tokens of the text and joined by single spaces;
    tokenizing the phrase gives these words back. *)
Theorem extracted_phrases_sound (text : str) (bip39_words : gset str) :
  NoDup (extract_seed_phrases text bip39_words)
  /\ forall p : str,
       p ∈ extract_seed_phrases text bip39_words ->
       exists ws : list str,
         p = join (py " ") ws
         /\ Forall (fun word => word ∈ bip39_words) ws
         /\ ws `sublist_of` extract_english_words text
         /\ config.MIN_SEED_WORDS - 1 <= len ws
         /\ extract_english_words p = ws.
Proof.
  unfold extract_seed_phrases.
  destruct (len (extract_english_words text) <? config.MIN_SEED_WORDS).
  { split; [constructor|]. intros p Hp. by apply elem_of_nil in Hp. }
  split; [apply NoDup_elements|].
  intros p Hp. apply elem_of_elements, elem_of_list_to_set in Hp.
  pose proof (seed_phrases_of_sound bip39_words (extract_english_words text)) as Hs.
  rewrite Forall_forall in Hs. destruct (Hs p Hp) as (ws & -> & Hws & Hsub & Hlen).
  exists ws. repeat split; try done.
  apply extract_english_words_join.
  pose proof (extract_english_words_lower text) as Hl.
  rewrite Forall_forall in Hl. apply Forall_forall. intros w Hw.
  apply Hl. by apply (sublist_subseteq _ _ Hsub).
Qed.

Lemma extracted_phrases_sound_witness :
  eleven_matched ∈ extract_seed_phrases noisy_words D12
  /\ exists ws : list str,
       eleven_matched = join (py " ") ws /\ config.MIN_SEED_WORDS - 1 <= len ws.
Proof.
  assert (H : eleven_matched ∈ extract_seed_phrases noisy_words D12).
  { apply (bool_decide_unpack _). vm_compute. exact I. }
  split; [exact H|].
  destruct (proj2 (extracted_phrases_sound noisy_words D12) _ H)
    as (ws & E & _ & _ & Hlen & _).
  exists ws. split; [exact E|exact Hlen].
Defined.

Lemma phrase_fold_isolated_run (bip39_words : gset str) (pre run post : list str) :
  Forall (fun word => word ∈ bip39_words) run ->
  config.MIN_SEED_WORDS <= len run ->
  (forall w, last pre = Some w -> w ∉ bip39_words) ->
  (forall w, head post = Some w -> w ∉ bip39_words) ->
  join (py " ") run
    ∈ snd (fold_left (phrase_step bip39_words) (pre ++ run ++ post) ([], []))
  \/ fst (fold_left (phrase_step bip39_words) (pre ++ run ++ post) ([], [])) = run.
Proof.
  intros Hrun Hlen Hpre Hpost. rewrite !fold_left_app.
  assert (E1 : exists sp1, fold_left (phrase_step bip39_words) pre ([], []) = ([], sp1)).
  { destruct (decide (pre = [])) as [->|Hne]; [by exists []|].
    pose proof (phrase_fold_after_stranger bip39_words pre ([], []) Hpre Hne) as H.
    destruct (fold_left (phrase_step bip39_words) pre ([], [])) as [cp sp].
    simpl in H. subst. by exists sp. }
  destruct E1 as [sp1 ->]. rewrite phrase_fold_members by exact Hrun.
  rewrite app_nil_l.
  assert (Hge : (len run >=? config.MIN_SEED_WORDS) = true) by (apply Z.geb_le; lia).
  destruct post as [|x post]; [by right|]. left.
  change (fold_left (phrase_step bip39_words) (x :: post) (run, sp1))
    with (fold_left (phrase_step bip39_words) post
            (phrase_step bip39_words (run, sp1) x)).
  apply phrase_fold_kept. unfold phrase_step.
  rewrite bool_decide_eq_false_2 by (apply Hpost; reflexivity).
  rewrite Hge. simpl. apply elem_of_app. right. left.
Qed.

Lemma seed_phrases_of_isolated_run (bip39_words : gset str) (pre run post : list str) :
  Forall (fun word => word ∈ bip39_words) run ->
  config.MIN_SEED_WORDS <= len run ->
  (forall w, last pre = Some w -> w ∉ bip39_words) ->
  (forall w, head post = Some w -> w ∉ bip39_words) ->
  join (py " ") run ∈ seed_phrases_of (pre ++ run ++ post) bip39_words.
Proof.
  intros Hrun Hlen Hpre Hpost. unfold seed_phrases_of.
  pose proof (phrase_fold_isolated_run bip39_words pre run post Hrun Hlen Hpre Hpost)
    as H.
  destruct (fold_left (phrase_step bip39_words) (pre ++ run ++ post) ([], []))
    as [cp sp].
  simpl in H. apply window_fold_kept. destruct H as [Hin| ->].
  - destruct (len cp >=? config.MIN_SEED_WORDS); [|exact Hin].
    apply elem_of_app. by left.
  - rewrite (proj2 (Z.geb_le _ _)) by lia. apply elem_of_app. right. left.
Qed.

(** X8: a run of at least [MIN_SEED_WORDS] dictionary words that stands
    between tokens outside the dictionary (or at an end of the text) is
    returned by the extractor as one phrase, without the tokens around it. *)
Theorem isolated_run_extracted (text : str) (bip39_words : gset str)
    (pre run post : list str) :
  extract_english_words text = pre ++ run ++ post ->
  Forall (fun word => word ∈ bip39_words) run ->
  config.MIN_SEED_WORDS <= len run ->
  (forall w, last pre = Some w -> w ∉ bip39_words) ->
  (forall w, head post = Some w -> w ∉ bip39_words) ->
  join (py " ") run ∈ extract_seed_phrases text bip39_words.
Proof.
  intros E Hrun Hlen Hpre Hpost. unfold extract_seed_phrases. rewrite E.
  destruct (Z.ltb_spec (len (pre ++ run ++ post)) config.MIN_SEED_WORDS) as [Hlt|_].
  { rewrite !len_app in Hlt. pose proof (len_nonneg pre). pose proof (len_nonneg post). lia. }
  apply elem_of_elements, elem_of_list_to_set.
  by apply seed_phrases_of_isolated_run.
Qed.

Lemma isolated_run_extracted_witness :
  twelve_words
  ∈ extract_seed_phrases (py "my phrase: " ++ twelve_words ++ py ". Thanks!") D12.
Proof.
  apply (isolated_run_extracted _ D12
           [py "my"; py "phrase"] (extract_english_words twelve_words)
           [py "thanks"]).
  - vm_compute. reflexivity.
  - apply (bool_decide_unpack _). vm_compute. exact I.
  - vm_compute. discriminate.
  - intros w [= <-]. apply (bool_decide_unpack _). vm_compute. exact I.
  - intros w [= <-]. apply (bool_decide_unpack _). vm_compute. exact I.
Defined.

(** X9: the extractor returns a phrase exactly when some window of
    [MIN_SEED_WORDS] consecutive tokens holds at least eleven dictionary
    words. *)
Theorem extraction_nonempty_iff (text : str) (bip39_words : gset str) :
  let words := extract_english_words text in
  extract_seed_phrases text bip39_words <> [] <->
  exists i,
    0 <= i <= len words - config.MIN_SEED_WORDS
    /\ 11 <= len (filter (fun word => word ∈ bip39_words)
                    (slice words i (i + config.MIN_SEED_WORDS))).
Proof.
  intros words. rewrite extract_seed_phrases_nonempty. fold words.
  assert (Hwin : has_dense_window bip39_words words <->
                 exists i,
                   0 <= i <= len words - config.MIN_SEED_WORDS
                   /\ 11 <= len (filter (fun word => word ∈ bip39_words)
                                   (slice words i (i + config.MIN_SEED_WORDS)))).
  { unfold has_dense_window. split; intros (i & Hi & Hd); exists i.
    - apply elem_of_range in Hi. apply dense_iff in Hd. split; [lia|exact Hd].
    - split; [apply elem_of_range; lia|by apply dense_iff]. }
  rewrite <- Hwin. split.
  - intros [_ Hne]. destruct (seed_phrases_of_nonempty _ _ Hne) as [Hr|Hw]; [|exact Hw].
    by apply max_run_dense_window.
  - intros Hw. split.
    + destruct Hw as (i & Hi & _). apply elem_of_range in Hi. lia.
    + unfold seed_phrases_of.
      destruct (fold_left (phrase_step bip39_words) words ([], [])) as [cp sp].
      apply window_fold_nonempty. right. exact Hw.
Qed.

(** X10: when the classifier returns [True], the extractor returns no
    phrase exactly when the decision came from the density fallback (the
    log record of that exit). *)
Theorem flagged_without_phrase (text : str) (bip39_words : gset str)
    (l : list log_record) :
  is_potential_seed_phrase text bip39_words = (l, inr true) ->
  (extract_seed_phrases text bip39_words = [] <->
   l = [InfoHighDensity
          (filter (fun word => word ∈ bip39_words) (extract_english_words text))]).
Proof.
  rewrite is_potential_seed_phrase_cases.
  set (words := extract_english_words text).
  destruct (Z.ltb_spec (len words) config.MIN_SEED_WORDS) as [|Hlen]; [discriminate|].
  destruct (len (filter _ words) <? config.MIN_SEED_WORDS); [discriminate|].
  assert (Hempty : extract_seed_phrases text bip39_words = [] <->
                   ~ has_dense_window bip39_words words).
  { pose proof (extract_seed_phrases_nonempty bip39_words text) as Hne.
    fold words in Hne. split.
    - intros E Hw. apply (proj2 Hne); [|exact E]. split; [lia|].
      unfold seed_phrases_of.
      destruct (fold_left (phrase_step bip39_words) words ([], [])) as [cp sp].
      apply window_fold_nonempty. right. exact Hw.
    - intros Hw. destruct (extract_seed_phrases text bip39_words) eqn:E; [reflexivity|].
      exfalso. apply Hw. destruct Hne as [[_ Hsp] _]; [discriminate|].
      destruct (seed_phrases_of_nonempty _ _ Hsp) as [Hr|Hd]; [|exact Hd].
      by apply max_run_dense_window. }
  rewrite Hempty.
  destruct (max_run bip39_words words >=? config.MIN_SEED_WORDS) eqn:Hr.
  { apply Z.geb_le in Hr. intros [= <-]. split; [|discriminate].
    intros Hw. exfalso. by apply Hw, max_run_dense_window. }
  destruct (dense_window_loop _ _ _) as [window|] eqn:Hloop.
  { intros [= <-]. split; [|discriminate]. intros Hw. exfalso. apply Hw.
    apply dense_window_loop_Some. rewrite Hloop. eauto. }
  destruct (len words <=? _); [|discriminate]. intros [= <-].
  split; [reflexivity|]. intros _ Hw.
  apply dense_window_loop_Some in Hw. rewrite Hloop in Hw. by destruct Hw.
Qed.

Lemma flagged_without_phrase_witness :
  exists l,
    is_potential_seed_phrase
      (py "abandon x ability x able x about x above x absent x absorb x abstract x absurd x abuse x access x accident x")
      D12 = (l, inr true)
    /\ extract_seed_phrases
         (py "abandon x ability x able x about x above x absent x absorb x abstract x absurd x abuse x access x accident x")
         D12 = [].
Proof.
  eexists. 
  assert (H : is_potential_seed_phrase
      (py "abandon x ability x able x about x above x absent x absorb x abstract x absurd x abuse x access x accident x")
      D12 = ([InfoHighDensity (filter (fun word => word ∈ D12) (extract_english_words
      (py "abandon x ability x able x about x above x absent x absorb x abstract x absurd x abuse x access x accident x")))], inr true))
    by (vm_compute; reflexivity).
  split; [exact H|].
  apply (proj2 (flagged_without_phrase _ _ _ H)). reflexivity.
Defined.

(** ** Blank word lists *)

Lemma lstrip_nil_iff (s : str) :
  lstrip s = [] <-> Forall (fun c => isspace c = true) s.
Proof.
  induction s as [|c s IH]; simpl; [split; [constructor|reflexivity]|].
  destruct (isspace c) eqn:Hc.
  - rewrite IH. split; [by constructor|by inversion 1].
  - split; [discriminate|]. inversion 1; congruence.
Qed.

Lemma strip_nil_iff (s : str) :
  strip s = [] <-> Forall (fun c => isspace c = true) s.
Proof.
  destruct (strip_trimmed s) as (pre & post & E & Hpre & Hpost & Hhd & _).
  split.
  - intros Hs. rewrite Hs in E. rewrite E. apply Forall_app. by split.
  - intros Hall. destruct (strip s) as [|c w] eqn:Hs; [reflexivity|].
    exfalso. rewrite E in Hall. apply Forall_app in Hall as [_ Hall].
    inversion Hall as [|? ? Hc _]; subst.
    specialize (Hhd c eq_refl). congruence.
Qed.

Lemma concat_lines_from (cur s : str) : concat (lines_from cur s) = rev cur ++ s.
Proof.
  revert cur. induction s as [|c s IH]; intros cur; simpl.
  - destruct cur; simpl; by rewrite ?app_nil_r.
  - destruct (c =? 10)%N; simpl; rewrite IH; simpl; by rewrite <- ?app_assoc.
Qed.

Lemma concat_file_lines (content : str) : concat (file_lines content) = content.
Proof. apply concat_lines_from. Qed.

Lemma load_empty_iff_blank (fs : file_system) (filepath : option str)
    (content : str) :
  os_path_exists fs (default config.BIP39_WORDLIST_FILE filepath) = true ->
  read_text fs (default config.BIP39_WORDLIST_FILE filepath) = inr content ->
  (returns (load_bip39_words fs filepath) ∅ <->
   Forall (fun c => isspace c = true) content).
Proof.
  intros Hex Hread.
  destruct (proj2 (proj2 (load_bip39_words_spec_aux fs filepath)) content Hex Hread)
    as (words & E & Hw).
  unfold returns. rewrite E. simpl.
  rewrite <- (concat_file_lines content). rewrite Forall_concat.
  split.
  - intros [= ->]. apply Forall_forall. intros line Hline.
    apply strip_nil_iff. destruct (strip line) as [|c w] eqn:Hs; [reflexivity|].
    exfalso. apply (not_elem_of_empty (C := gset str) (c :: w)).
    apply Hw. split; [discriminate|]. exists line. split; [exact Hline|].
    rewrite <- Hs. apply strip_trimmed.
  - intros Hall. f_equal. apply set_eq. intros w. split; [|set_solver].
    intros Hin. apply Hw in Hin as (Hne & line & Hline & Htr).
    rewrite Forall_forall in Hall. specialize (Hall line Hline).
    apply strip_nil_iff in Hall. rewrite (trimmed_of_strip _ _ Htr Hne) in Hall.
    contradiction.
Qed.

(** X11: a word list that is read without error loads as the empty set
    exactly when the file holds nothing but white space. *)
Theorem blank_wordlist_loads_empty (fs : file_system) (filepath : option str)
    (content : str) :
  os_path_exists fs (default config.BIP39_WORDLIST_FILE filepath) = true ->
  read_text fs (default config.BIP39_WORDLIST_FILE filepath) = inr content ->
  (returns (load_bip39_words fs filepath) ∅ <->
   Forall (fun c => isspace c = true) content).
Proof. apply load_empty_iff_blank. Qed.

Lemma blank_wordlist_loads_empty_witness :
  returns
    (load_bip39_words
       {| os_path_exists := fun _ => true;
          read_text := fun _ => inr [32%N; 10%N; 9%N; 10%N] |} None) ∅.
Proof.
  apply (proj2 (blank_wordlist_loads_empty
                  {| os_path_exists := fun _ => true;
                     read_text := fun _ => inr [32%N; 10%N; 9%N; 10%N] |}
                  None [32%N; 10%N; 9%N; 10%N] eq_refl eq_refl)).
  repeat constructor.
Defined.

(** ** Which dictionary entries matter *)

Section Agree.

Variables D D' : gset str.
Hypothesis agree : forall w, lowercase_word w -> (w ∈ D <-> w ∈ D').

Lemma filter_agree (l : list str) :
  Forall lowercase_word l ->
  filter (fun word => word ∈ D) l = filter (fun word => word ∈ D') l.
Proof.
  induction 1 as [|w l Hw _ IH]; [reflexivity|].
  rewrite !filter_cons, IH.
  destruct (decide (w ∈ D)) as [Hin|Hin], (decide (w ∈ D')) as [Hin'|Hin'];
    try reflexivity; exfalso; apply (agree w Hw) in Hin || apply Hin, (agree w Hw);
    done.
Qed.

Lemma run_fold_agree (l : list str) (st : Z * Z) :
  Forall lowercase_word l ->
  fold_left (run_step D) l st = fold_left (run_step D') l st.
Proof.
  intros Hl. revert st. induction Hl as [|w l Hw _ IH]; intros st; [reflexivity|].
  simpl. rewrite IH. f_equal. unfold run_step.
  by rewrite (bool_decide_ext _ _ (agree w Hw)).
Qed.

Lemma phrase_fold_agree (l : list str) (st : list str * list str) :
  Forall lowercase_word l ->
  fold_left (phrase_step D) l st = fold_left (phrase_step D') l st.
Proof.
  intros Hl. revert st. induction Hl as [|w l Hw _ IH]; intros st; [reflexivity|].
  simpl. rewrite IH. f_equal. unfold phrase_step.
  by rewrite (bool_decide_ext _ _ (agree w Hw)).
Qed.

Lemma slice_lowercase (words : list str) (i j : Z) :
  Forall lowercase_word words -> Forall lowercase_word (slice words i j).
Proof. intros H. unfold slice. by apply Forall_take, Forall_drop. Qed.

Lemma dense_window_loop_agree (words : list str) (indices : list Z) :
  Forall lowercase_word words ->
  dense_window_loop words D indices = dense_window_loop words D' indices.
Proof.
  intros Hw. induction indices as [|i indices IH]; [reflexivity|].
  simpl. by rewrite IH, (filter_agree _ (slice_lowercase words _ _ Hw)).
Qed.

Lemma window_fold_agree (words : list str) (indices : list Z) (sp : list str) :
  Forall lowercase_word words ->
  fold_left (window_step words D) indices sp
  = fold_left (window_step words D') indices sp.
Proof.
  intros Hw. revert sp. induction indices as [|i indices IH]; intros sp; [reflexivity|].
  simpl. rewrite IH. f_equal. unfold window_step.
  by rewrite (filter_agree _ (slice_lowercase words _ _ Hw)).
Qed.

End Agree.

(** X12: only the dictionary entries that are non-empty strings of
    lowercase ASCII letters take part in detection: two dictionaries with
    the same such entries give the same classification, log and phrases on
    every text. *)
Theorem only_lowercase_entries_matter (text : str) (D D' : gset str) :
  (forall w, lowercase_word w -> (w ∈ D <-> w ∈ D')) ->
  is_potential_seed_phrase text D = is_potential_seed_phrase text D'
  /\ extract_seed_phrases text D = extract_seed_phrases text D'.
Proof.
  intros Hagree. pose proof (extract_english_words_lower text) as Hl.
  split.
  - unfold is_potential_seed_phrase.
    rewrite (filter_agree D D' Hagree _ Hl), (run_fold_agree D D' Hagree _ _ Hl),
      (dense_window_loop_agree D D' Hagree _ _ Hl).
    reflexivity.
  - unfold extract_seed_phrases, seed_phrases_of.
    rewrite (phrase_fold_agree D D' Hagree _ _ Hl).
    destruct (fold_left (phrase_step D') _ _) as [cp sp].
    by rewrite (window_fold_agree D D' Hagree _ _ _ Hl).
Qed.

Lemma only_lowercase_entries_matter_witness :
  is_potential_seed_phrase twelve_words (D12 ∪ {[py "Ability"]})
  = is_potential_seed_phrase twelve_words D12.
Proof.
  apply (only_lowercase_entries_matter twelve_words (D12 ∪ {[py "Ability"]}) D12).
  intros w [_ Hw]. rewrite elem_of_union, elem_of_singleton.
  split; [|by left]. intros [Hin| ->]; [exact Hin|].
  exfalso. inversion Hw as [|? ? Hc _]. discriminate Hc.
Defined.

(** * The timestamp manager and the scanner *)

(** ** Laws of the scanner's effects *)

Arguments P_bind {A B} m k : simpl never.

Lemma P_bind_pure {A B} (a : A) (k : A -> P B) : P_bind (([], inr a) : P A) k = k a.
Proof. unfold P_bind. by destruct (k a). Qed.

Lemma P_bind_ret {A B} (a : A) (k : A -> P B) : P_bind (P_ret a) k = k a.
Proof. apply P_bind_pure. Qed.

Lemma P_bind_inr {A B} (m : P A) (k : A -> P B) (l : list event) (b : B) :
  P_bind m k = (l, inr b) ->
  exists l1 a l2, m = (l1, inr a) /\ k a = (l2, inr b) /\ l = l1 ++ l2.
Proof.
  unfold P_bind. destruct m as [l1 [e|a]]; [discriminate|].
  destruct (k a) as [l2 r] eqn:E. intros [= <- ->]. eauto 6.
Qed.

Lemma P_bind_returns {A B} (m : P A) (k : A -> P B) (l1 l2 : list event) (a : A) (b : B) :
  m = (l1, inr a) -> k a = (l2, inr b) -> P_bind m k = (l1 ++ l2, inr b).
Proof. intros -> E. unfold P_bind. by rewrite E. Qed.

(** ** timestamp_manager.py *)

Lemma get_last_scan_time_returns (file : timestamp_file) :
  exists (l : list event) (last_scan_time : value),
    P_returns (get_last_scan_time file) last_scan_time
    /\ get_last_scan_time file = (l, inr last_scan_time).
Proof.
  unfold get_last_scan_time, value_get, P_try, P_bind, P_ret, P_log, P_raise, P_returns.
  destruct file as [|[e|data]]; simpl; [by do 2 eexists|by do 2 eexists|].
  destruct data; simpl; try (by do 2 eexists).
  destruct (truthy_value _); by do 2 eexists.
Qed.

(** X13: [get_last_scan_time] never raises and returns [None] or a truthy
    value: [None] when the file is absent, cannot be read or parsed, holds
    something else than a dictionary, lacks the key ["last_scan_time"] or
    holds a falsy value under it, and the value under the key otherwise. *)
Theorem get_last_scan_time_cases (file : timestamp_file) :
  exists l,
    get_last_scan_time file
    = (l, inr match file with
              | FileWith (inr (VDict d)) =>
                  if truthy_value (dict_get d (py "last_scan_time") VNone)
                  then dict_get d (py "last_scan_time") VNone
                  else VNone
              | _ => VNone
              end).
Proof.
  unfold get_last_scan_time, value_get, P_try, P_bind, P_ret, P_log, P_raise.
  destruct file as [|[e|data]]; simpl; [by eexists|by eexists|].
  destruct data; simpl; try (by eexists).
  destruct (truthy_value _); by eexists.
Qed.

(** X14: [update_scan_time] never raises and returns the current time in
    ISO format followed by ["Z"] when the file was written, [None]
    otherwise, with the exception in the log.  When it returns a time, a
    following [get_last_scan_time] returns that same string.  When opening
    the file fails, the file is as it was.  When the write fails after the
    file was opened, the earlier contents are gone: the file is what the
    failed write left behind, and if that is no JSON document, a following
    [get_last_scan_time] returns [None], whatever time the file held
    before. *)
Theorem scan_time_round_trip (now_iso now_display : str) (outcome : write_outcome)
    (file : timestamp_file) :
  let current_time := VStr (now_iso ++ py "Z") in
  let result := fst (update_scan_time now_iso now_display outcome file) in
  let file' := snd (update_scan_time now_iso now_display outcome file) in
  result
  = match outcome with
    | Written => ([InfoScanTimeUpdated (now_iso ++ py "Z")], inr current_time)
    | OpenFails e | DumpFails e _ => ([ErrorUpdateTimestamp e], inr VNone)
    end
  /\ (forall time, P_returns result time -> time <> VNone ->
        time = current_time /\ P_returns (get_last_scan_time file') time)
  /\ (forall e, outcome = OpenFails e -> file' = file)
  /\ (forall e remains, outcome = DumpFails e remains ->
        file' = FileWith remains
        /\ (forall e', remains = inl e' -> P_returns (get_last_scan_time file') VNone)).
Proof.
  intros current_time result file'. split; [by destruct outcome|].
  split; [|split].
  - intros time Hr Hne. subst result file'. destruct outcome; cbv in Hr.
    + injection Hr as <-. split; [reflexivity|].
      unfold P_returns. destruct now_iso; vm_compute; reflexivity.
    + by injection Hr as <-.
    + by injection Hr as <-.
  - by intros e ->.
  - intros e remains ->. split; [reflexivity|]. by intros e' ->.
Qed.

Lemma scan_time_round_trip_witness :
  VStr (py "2024-05-01T12:00:00.000001Z") = VStr (py "2024-05-01T12:00:00.000001Z")
  /\ P_returns
       (get_last_scan_time
          (snd (update_scan_time (py "2024-05-01T12:00:00.000001")
                  (py "2024-05-01 12:00:00") Written
                  (FileWith (inl JSONDecodeError)))))
       (VStr (py "2024-05-01T12:00:00.000001Z")).
Proof.
  apply (proj1 (proj2 (scan_time_round_trip (py "2024-05-01T12:00:00.000001")
                         (py "2024-05-01 12:00:00") Written
                         (FileWith (inl JSONDecodeError))))).
  - reflexivity.
  - discriminate.
Defined.

(** ** get_video_comments *)

Section Fetch.

Variable youtube : youtube_client.
Variable last_scan_time : value.
Variable video : str.

Lemma comment_step_newer (comments : list comment) (item : comment_thread)
    (l : list event) (comments' : list comment) :
  comment_step last_scan_time comments item = (l, inr comments') ->
  truthy_value last_scan_time = true ->
  Forall (newer last_scan_time) comments ->
  l = [] /\ Forall (newer last_scan_time) comments'.
Proof.
  unfold comment_step. intros E Ht Hc. rewrite Ht in E.
  destruct last_scan_time as [| | | |t| |] eqn:El; simpl in E; try discriminate.
  destruct (str_le (publishedAt (topLevelComment item)) t) eqn:Hle;
    simpl in E; injection E as <- <-; split; try reflexivity; [exact Hc|].
  apply Forall_app. split; [exact Hc|]. constructor; [|constructor].
  exists t. split; [reflexivity|exact Hle].
Qed.

Lemma comment_step_first_scan (comments : list comment) (item : comment_thread) :
  truthy_value last_scan_time = false ->
  comment_step last_scan_time comments item = ([], inr (comments ++ [to_comment item])).
Proof. unfold comment_step. intros ->. reflexivity. Qed.

Lemma for_items_newer (its : list comment_thread) (comments : list comment)
    (l : list event) (comments' : list comment) :
  for_items last_scan_time its comments = (l, inr comments') ->
  truthy_value last_scan_time = true ->
  Forall (newer last_scan_time) comments ->
  l = [] /\ Forall (newer last_scan_time) comments'.
Proof.
  revert comments l. induction its as [|item its IH]; intros comments l E Ht Hc.
  - simpl in E. injection E as <- <-. by split.
  - simpl in E. apply P_bind_inr in E as (l1 & c1 & l2 & E1 & E2 & ->).
    destruct (comment_step_newer _ _ _ _ E1 Ht Hc) as [-> Hc1].
    destruct (IH _ _ E2 Ht Hc1) as [-> Hc2]. by split.
Qed.

Lemma for_items_first_scan (its : list comment_thread) (comments : list comment) :
  truthy_value last_scan_time = false ->
  for_items last_scan_time its comments = ([], inr (comments ++ (to_comment <$> its))).
Proof.
  intros Ht. revert comments. induction its as [|item its IH]; intros comments; simpl.
  - by rewrite app_nil_r.
  - rewrite comment_step_first_scan by exact Ht. rewrite P_bind_pure, IH.
    by rewrite <- app_assoc.
Qed.

Lemma all_older_newer (c : comment) (l : list comment) :
  newer last_scan_time c -> all_older last_scan_time (c :: l) = ([], inr false).
Proof. intros (t & -> & Hle). simpl. by rewrite Hle. Qed.

Lemma last_n_nonempty {A} (n : Z) (l : list A) :
  0 < n -> l <> [] -> exists x l', last_n n l = x :: l' /\ x ∈ l.
Proof.
  intros Hn Hl. unfold last_n.
  destruct (drop (length l - Z.to_nat n) l) as [|x l'] eqn:E.
  - exfalso. apply (f_equal (@length _)) in E. rewrite length_drop in E.
    destruct l; [done|]. simpl in E. lia.
  - exists x, l'. split; [reflexivity|].
    apply (sublist_subseteq _ _ (sublist_drop l (length l - Z.to_nat n))).
    rewrite E. left.
Qed.

(** The loop keeps the comments collected so far newer than the last scan,
    and logs the early stop only when it has collected none. *)
Lemma fetch_pages_newer (pages_left : nat) (page_count : Z) (page_token : option str)
    (comments : list comment) (l : list event) (result : list comment) :
  fetch_pages pages_left youtube last_scan_time video page_count page_token comments
  = (l, inr result) ->
  truthy_value last_scan_time = true ->
  Forall (newer last_scan_time) comments ->
  Forall (newer last_scan_time) result
  /\ (l = [] \/ (l = [InfoRemainingOlder video] /\ result = [])).
Proof.
  revert page_count page_token comments l.
  induction pages_left as [|pages_left IH]; intros page_count page_token comments l E Ht Hc.
  - simpl in E. injection E as <- <-. split; [exact Hc|by left].
  - simpl in E. destruct (page_count <? config.MAX_PAGES_PER_VIDEO).
    2:{ injection E as <- <-. split; [exact Hc|by left]. }
    apply P_bind_inr in E as (l1 & response & l2 & E1 & E2 & ->).
    injection E1 as <- E1.
    apply P_bind_inr in E2 as (l3 & comments1 & l4 & E3 & E4 & ->).
    destruct (for_items_newer _ _ _ _ E3 Ht Hc) as [-> Hc1].
    destruct (truthy_token (nextPageToken response)); simpl in E4.
    2:{ injection E4 as <- <-. split; [exact Hc1|by left]. }
    rewrite Ht in E4.
    destruct comments1 as [|c comments1].
    + unfold last_n in E4. simpl in E4. injection E4 as <- <-.
      split; [constructor|right; by split].
    + destruct (last_n_nonempty config.MAX_RESULTS_PER_PAGE (c :: comments1))
        as (x & rest & Elast & Hx); [done|done|].
      rewrite Elast in E4.
      rewrite all_older_newer in E4
        by (rewrite Forall_forall in Hc1; by apply Hc1).
      rewrite P_bind_pure in E4. simpl. by apply (IH _ _ _ _ E4).
Qed.

Lemma fetch_pages_first_scan (pages : list comment_threads_response)
    (last_page : comment_threads_response)
    (pages_left : nat) (page_count : Z) (page_token : option str)
    (comments : list comment) :
  truthy_value last_scan_time = false ->
  0 <= page_count ->
  serves youtube video (Z.to_nat page_count) page_token (pages ++ [last_page]) ->
  Forall (fun page => truthy_token (nextPageToken page) = true) pages ->
  truthy_token (nextPageToken last_page) = false
  \/ page_count + len pages = config.MAX_PAGES_PER_VIDEO - 1 ->
  page_count + len pages < config.MAX_PAGES_PER_VIDEO ->
  (length pages < pages_left)%nat ->
  fetch_pages pages_left youtube last_scan_time video page_count page_token comments
  = ([], inr (comments ++ (to_comment <$> concat (items <$> pages ++ [last_page])))).
Proof.
  intros Ht. revert pages_left page_count page_token comments.
  induction pages as [|page pages IH];
    intros pages_left page_count page_token comments H0 Hs Htok Hlast Hmax Hfuel.
  - destruct pages_left as [|pages_left]; [simpl in Hfuel; lia|].
    unfold len in *. simpl in *. destruct Hs as [Hs _].
    rewrite (proj2 (Z.ltb_lt _ _)) by lia.
    rewrite Hs, P_bind_pure, for_items_first_scan by exact Ht.
    rewrite P_bind_pure, app_nil_r.
    destruct (truthy_token (nextPageToken last_page)) eqn:Hl; [|reflexivity].
    simpl. rewrite Ht, P_bind_ret.
    destruct Hlast as [|Hlast]; [discriminate|].
    destruct pages_left as [|pages_left]; [reflexivity|]. simpl.
    by rewrite (proj2 (Z.ltb_ge _ _)) by lia.
  - destruct pages_left as [|pages_left]; [simpl in Hfuel; lia|].
    inversion Htok as [|? ? Hp Htok']; subst.
    unfold len in *. simpl in Hs, Hmax, Hlast, Hfuel. destruct Hs as [Hs Hs'].
    simpl fetch_pages.
    rewrite (proj2 (Z.ltb_lt _ _)) by lia.
    rewrite Hs, P_bind_pure, for_items_first_scan by exact Ht.
    rewrite P_bind_pure, Hp. simpl negb. cbv iota. rewrite Ht, P_bind_ret.
    cbv iota.
    rewrite (IH pages_left (page_count + 1)); try lia; try done.
    + rewrite <- app_comm_cons, fmap_cons. simpl concat.
      by rewrite (fmap_app to_comment), app_assoc.
    + replace (Z.to_nat (page_count + 1)) with (S (Z.to_nat page_count)) by lia.
      exact Hs'.
    + destruct Hlast as [Hlast|Hlast]; [by left|right; lia].
Qed.


End Fetch.







(** Without a last scan time the loop logs nothing. *)
Lemma fetch_pages_silent (youtube : youtube_client) (last_scan_time : value)
    (video : str) (pages_left : nat) (page_count : Z) (page_token : option str)
    (comments : list comment) (l : list event) (r : error + list comment) :
  truthy_value last_scan_time = false ->
  fetch_pages pages_left youtube last_scan_time video page_count page_token comments
  = (l, r) ->
  l = [].
Proof.
  intros Ht. revert page_count page_token comments l.
  induction pages_left as [|n IH]; intros pc tok cs l E; simpl in E.
  - by injection E as <- _.
  - destruct (pc <? config.MAX_PAGES_PER_VIDEO); [|by injection E as <- _].
    destruct (youtube (Z.to_nat pc) video tok) as [e|response].
    { unfold P_bind in E. by injection E as <- _. }
    rewrite P_bind_pure in E.
    rewrite for_items_first_scan in E by exact Ht. rewrite P_bind_pure in E.
    destruct (truthy_token (nextPageToken response)); simpl in E;
      [|by injection E as <- _].
    rewrite Ht, P_bind_ret in E. by apply IH in E.
Qed.

Lemma get_video_comments_client (client : youtube_client) (last_scan_time : value)
    (video : str) :
  get_video_comments (Some client) last_scan_time video
  = match fetch_pages (Z.to_nat config.MAX_PAGES_PER_VIDEO) client last_scan_time
            video 0 None [] with
    | (l, inr comments) =>
        (InfoFetchingComments video :: l ++ [InfoFetchedComments video (len comments)],
         inr comments)
    | (l, inl e) =>
        (InfoFetchingComments video :: l ++ [ErrorFetchingComments video e], inr [])
    end.
Proof.
  unfold get_video_comments.
  destruct (fetch_pages _ _ _ _ _ _ _) as [l [e|comments]];
    unfold P_bind, P_try, P_log, P_ret; simpl; by rewrite ?app_nil_r.
Qed.

Lemma get_video_comments_returns (youtube : option youtube_client)
    (last_scan_time : value) (video : str) :
  exists (l : list event) (comments : list comment),
    get_video_comments youtube last_scan_time video = (l, inr comments)
    /\ (truthy_value last_scan_time = true ->
        Forall (newer last_scan_time) comments).
Proof.
  destruct youtube as [client|]; [|by do 2 eexists; split; [reflexivity|constructor]].
  rewrite get_video_comments_client.
  destruct (fetch_pages _ _ _ _ _ _ _) as [l [e|comments]] eqn:E.
  - do 2 eexists. split; [reflexivity|constructor].
  - do 2 eexists. split; [reflexivity|]. intros Ht.
    by apply (fetch_pages_newer _ _ _ _ _ _ _ _ _ E Ht).
Qed.

(** X15: [get_video_comments] never raises, and when a last scan time is
    set it returns only comments published after it: the last scan time is
    then a string and no returned comment has a time at or before it. *)
Theorem fetched_comments_are_newer (youtube : option youtube_client)
    (last_scan_time : value) (video : str) :
  exists (l : list event) (comments : list comment),
    get_video_comments youtube last_scan_time video = (l, inr comments)
    /\ (truthy_value last_scan_time = true ->
        Forall (newer last_scan_time) comments).
Proof. apply get_video_comments_returns. Qed.

Lemma fetched_comments_are_newer_witness :
  truthy_value (VStr (py "2024-02-01T00:00:00Z")) = true
  /\ exists (l : list event) (comments : list comment),
       get_video_comments (Some example_client) (VStr (py "2024-02-01T00:00:00Z"))
         (py "video") = (l, inr comments)
       /\ Forall (newer (VStr (py "2024-02-01T00:00:00Z"))) comments.
Proof.
  split; [reflexivity|].
  destruct (fetched_comments_are_newer (Some example_client)
              (VStr (py "2024-02-01T00:00:00Z")) (py "video"))
    as (l & comments & E & H).
  exists l, comments. split; [exact E|]. apply H. reflexivity.
Defined.

(** X16: the early stop ("the remaining comments are older than the last
    scan") is taken only when no comment newer than the last scan has been
    collected: whenever it is logged, the result is empty. *)
Theorem early_stop_only_when_empty (youtube : option youtube_client)
    (last_scan_time : value) (video : str) (l : list event)
    (comments : list comment) :
  get_video_comments youtube last_scan_time video = (l, inr comments) ->
  InfoRemainingOlder video ∈ l ->
  comments = [].
Proof.
  destruct youtube as [client|].
  2:{ cbv [get_video_comments P_bind P_log P_ret]. simpl. by intros [= <- <-] _. }
  rewrite get_video_comments_client.
  destruct (fetch_pages _ _ _ _ _ _ _) as [l' [e|comments']] eqn:E.
  { by intros [= <- <-]. }
  intros [= <- <-] Hin.
  destruct (truthy_value last_scan_time) eqn:Ht.
  - destruct (fetch_pages_newer _ _ _ _ _ _ _ _ _ E Ht) as [_ [->|[-> ->]]];
      [constructor| |reflexivity].
    apply elem_of_cons in Hin as [Hin|Hin]; [discriminate|].
    apply elem_of_cons in Hin as [Hin|Hin]; [discriminate|by apply elem_of_nil in Hin].
  - rewrite (fetch_pages_silent _ _ _ _ _ _ _ _ _ Ht E) in Hin.
    apply elem_of_cons in Hin as [Hin|Hin]; [discriminate|].
    apply elem_of_cons in Hin as [Hin|Hin]; [discriminate|by apply elem_of_nil in Hin].
Qed.

Lemma early_stop_only_when_empty_witness :
  exists (l : list event) (comments : list comment),
    get_video_comments (Some example_client) (VStr (py "2024-04-01T00:00:00Z"))
      (py "video") = (l, inr comments)
    /\ InfoRemainingOlder (py "video") ∈ l
    /\ comments = [].
Proof.
  assert (E : get_video_comments (Some example_client)
                (VStr (py "2024-04-01T00:00:00Z")) (py "video")
              = ([InfoFetchingComments (py "video"); InfoRemainingOlder (py "video");
                  InfoFetchedComments (py "video") 0], inr []))
    by (vm_compute; reflexivity).
  assert (Hin : InfoRemainingOlder (py "video")
                ∈ [InfoFetchingComments (py "video"); InfoRemainingOlder (py "video");
                   InfoFetchedComments (py "video") 0])
    by (apply list_elem_of_In; right; left; reflexivity).
  do 2 eexists. split; [exact E|]. split; [exact Hin|].
  exact (early_stop_only_when_empty _ _ _ _ _ E Hin).
Defined.

(** X17: on a first scan (no last scan time) [get_video_comments] returns
    the comments of all the pages the client serves, in order, up to the
    page without a next-page token or the tenth page. *)
Theorem first_scan_fetches_all_pages (youtube : youtube_client)
    (last_scan_time : value) (video : str)
    (pages : list comment_threads_response) (last_page : comment_threads_response) :
  truthy_value last_scan_time = false ->
  serves youtube video 0 None (pages ++ [last_page]) ->
  Forall (fun page => truthy_token (nextPageToken page) = true) pages ->
  len pages < config.MAX_PAGES_PER_VIDEO ->
  truthy_token (nextPageToken last_page) = false
  \/ len pages = config.MAX_PAGES_PER_VIDEO - 1 ->
  P_returns (get_video_comments (Some youtube) last_scan_time video)
    (to_comment <$> concat (items <$> pages ++ [last_page])).
Proof.
  intros Ht Hs Htok Hmax Hlast. rewrite get_video_comments_client.
  rewrite (fetch_pages_first_scan youtube last_scan_time video pages last_page);
    try done; unfold len, config.MAX_PAGES_PER_VIDEO in *; lia.
Qed.

Lemma first_scan_fetches_all_pages_witness :
  P_returns (get_video_comments (Some example_client) VNone (py "video"))
    (to_comment <$> [example_thread "c1" "2024-01-10T00:00:00Z" "first";
                     example_thread "c2" "2024-03-10T00:00:00Z" "second";
                     example_thread "c3" "2024-02-10T00:00:00Z" "third"]).
Proof.
  apply (first_scan_fetches_all_pages example_client VNone (py "video")
           [{| items := [example_thread "c1" "2024-01-10T00:00:00Z" "first";
                         example_thread "c2" "2024-03-10T00:00:00Z" "second"];
               nextPageToken := Some (py "page2") |}]
           {| items := [example_thread "c3" "2024-02-10T00:00:00Z" "third"];
              nextPageToken := None |}).
  - reflexivity.
  - simpl. by repeat split.
  - by repeat constructor.
  - by vm_compute.
  - by left.
Defined.



(** ** The scanning loop *)

Lemma is_scam_comment_returns (bip39_words : gset str) (comment_text : str) :
  exists (l : list event) (b : bool),
    is_scam_comment bip39_words comment_text = (l, inr b)
    /\ returns (is_potential_seed_phrase comment_text bip39_words) b.
Proof.
  destruct (is_potential_seed_phrase_returns bip39_words comment_text) as (l0 & b & E).
  unfold is_scam_comment, of_bip39, returns. rewrite E. simpl.
  unfold P_bind, P_log, P_ret.
  destruct b; [destruct (truthy _)|]; simpl; by do 2 eexists.
Qed.

Lemma scan_comment_step_spec (bip39_words : gset str) (v : video)
    (n : Z) (detected : list scam) (c : comment) :
  exists (l : list event) (added : list scam),
    scan_comment_step bip39_words v (n, detected) c
    = (l, inr (n + len added, detected ++ added))
    /\ Forall (detected_in bip39_words v) added
    /\ len added <= 1.
Proof.
  destruct (is_scam_comment_returns bip39_words (comment_text c))
    as (l & b & E & Hb).
  unfold scan_comment_step. rewrite E. unfold P_bind, P_log, P_ret.
  destruct b.
  - destruct (truthy _); simpl; eexists; eexists [_];
      (split; [reflexivity|split; [|by vm_compute]]);
      constructor; [|constructor| |constructor]; by repeat split.
  - simpl. exists l, []. rewrite !app_nil_r.
    unfold len. simpl. rewrite Z.add_0_r.
    split; [reflexivity|]. split; [constructor|lia].
Qed.

Lemma scan_comments_spec (bip39_words : gset str) (v : video)
    (comments : list comment) (n : Z) (detected : list scam) :
  exists (l : list event) (added : list scam),
    scan_comments bip39_words v comments (n, detected)
    = (l, inr (n + len added, detected ++ added))
    /\ Forall (detected_in bip39_words v) added
    /\ len added <= len comments.
Proof.
  revert n detected. induction comments as [|c comments IH]; intros n detected.
  - exists [], []. rewrite app_nil_r. unfold len. simpl. rewrite Z.add_0_r.
    split; [reflexivity|]. split; [constructor|lia].
  - destruct (scan_comment_step_spec bip39_words v n detected c)
      as (l1 & a1 & E1 & H1 & Hl1).
    destruct (IH (n + len a1) (detected ++ a1)) as (l2 & a2 & E2 & H2 & Hl2).
    exists (l1 ++ l2), (a1 ++ a2). cbn [scan_comments].
    rewrite (P_bind_returns _ _ _ _ _ _ E1 E2).
    split; [by rewrite len_app, Z.add_assoc, app_assoc|].
    split; [by apply Forall_app|].
    rewrite len_app. unfold len in *. simpl. lia.
Qed.

Lemma scan_videos_from_spec (youtube : option youtube_client)
    (last_scan_time : value) (bip39_words : gset str)
    (videos : list video) (total n : Z) (detected : list scam) :
  exists (l : list event) (fetched : Z) (added : list scam),
    scan_videos_from youtube last_scan_time bip39_words videos (total, n, detected)
    = (l, inr (total + fetched, n + len added, detected ++ added))
    /\ Forall (fun s => exists v, v ∈ videos /\ detected_in bip39_words v s) added
    /\ len added <= fetched.
Proof.
  revert total n detected.
  induction videos as [|v videos IH]; intros total n detected.
  - exists [], 0, []. rewrite app_nil_r. unfold len. simpl. rewrite !Z.add_0_r.
    split; [reflexivity|]. split; [constructor|lia].
  - destruct (get_video_comments_returns youtube last_scan_time (video_id v))
      as (l1 & comments & E1 & _).
    destruct (scan_comments_spec bip39_words v comments n detected)
      as (l2 & a1 & E2 & H1 & Hl1).
    destruct (IH (total + len comments) (n + len a1) (detected ++ a1))
      as (l3 & fetched & a2 & E3 & H2 & Hl2).
    exists ((InfoProcessingVideo (video_title v) (video_id v) :: l1 ++ l2) ++ l3),
      (len comments + fetched), (a1 ++ a2).
    split; [|split].
    + cbn [scan_videos_from].
      eapply P_bind_returns;
        [|rewrite E3, len_app, !Z.add_assoc, app_assoc; reflexivity].
      unfold scan_video_step, P_bind, P_log, P_ret. simpl. rewrite E1. simpl.
      rewrite E2. simpl. by rewrite ?app_nil_r.
    + apply Forall_app. split.
      * eapply Forall_impl; [exact H1|]. intros s Hs. exists v. split; [left|exact Hs].
      * eapply Forall_impl; [exact H2|]. intros s (v' & Hv' & Hs).
        exists v'. split; [by right|exact Hs].
    + rewrite len_app. lia.
Qed.

(** X19: the scanning loop of [scan_and_delete] never raises; when it ends,
    [scam_comments] is the number of records in [detected_scams] and is at
    most [total_comments]; every record was made for a comment that the
    classifier flags, carries the phrases the extractor finds in its text,
    and names one of the scanned videos. *)
Theorem scan_counts_and_records (youtube : option youtube_client)
    (last_scan_time : value) (bip39_words : gset str) (videos : list video) :
  exists (l : list event) (total_comments scam_comments : Z)
         (detected_scams : list scam),
    scan_videos youtube last_scan_time bip39_words videos
    = (l, inr (total_comments, scam_comments, detected_scams))
    /\ scam_comments = len detected_scams
    /\ scam_comments <= total_comments
    /\ Forall (fun s => exists v, v ∈ videos /\ detected_in bip39_words v s)
         detected_scams.
Proof.
  destruct (scan_videos_from_spec youtube last_scan_time bip39_words videos 0 0 [])
    as (l & fetched & added & E & Hadded & Hlen).
  exists l, fetched, (len added), added. unfold scan_videos. rewrite E.
  by repeat split.
Qed.

(** X20: [is_scam_comment] never raises and returns the verdict of the
    classifier; it logs the extracted phrases exactly when the comment is
    flagged and the extractor finds a phrase. *)
Theorem is_scam_comment_verdict (bip39_words : gset str) (comment_text : str) :
  exists (l : list event) (b : bool),
    is_scam_comment bip39_words comment_text = (l, inr b)
    /\ returns (is_potential_seed_phrase comment_text bip39_words) b
    /\ (InfoPhrasesFound (extract_seed_phrases comment_text bip39_words) ∈ l <->
        b = true /\ extract_seed_phrases comment_text bip39_words <> []).
Proof.
  destruct (is_potential_seed_phrase_returns bip39_words comment_text) as (l0 & b & E).
  unfold is_scam_comment, of_bip39, returns. rewrite E. simpl.
  unfold P_bind, P_log, P_ret.
  assert (Hno : forall ph, InfoPhrasesFound ph ∉ Bip39 <$> l0).
  { intros ph Hin. apply list_elem_of_fmap in Hin as (r & Hr & _). discriminate. }
  destruct b.
  - destruct (extract_seed_phrases comment_text bip39_words) as [|p ps] eqn:Ex; simpl;
      do 2 eexists; (split; [reflexivity|split; [reflexivity|]]).
    + rewrite ?app_nil_r. split; [intros Hin; by apply Hno in Hin|by intros [_ ?]].
    + rewrite ?app_nil_r. split; [done|]. intros _. apply elem_of_app. right. left.
  - simpl. do 2 eexists. split; [reflexivity|split; [reflexivity|]].
    rewrite ?app_nil_r. split; [intros Hin; by apply Hno in Hin|by intros [? _]].
Qed.

(** X21: the detector starts only with a non-empty dictionary: its
    initialisation never raises, and exits with status 1 exactly when the
    word list is missing, cannot be read, or holds nothing but white space;
    otherwise it returns the loaded words and what [get_last_scan_time]
    returns. *)
Theorem detector_init_exits_iff (fs : file_system) (file : timestamp_file) :
  (P_returns (detector_init fs file) (inl 1) <->
   os_path_exists fs config.BIP39_WORDLIST_FILE = false
   \/ (exists e, read_text fs config.BIP39_WORDLIST_FILE = inl e)
   \/ (exists content,
         read_text fs config.BIP39_WORDLIST_FILE = inr content
         /\ Forall (fun c => isspace c = true) content))
  /\ (~ P_returns (detector_init fs file) (inl 1) ->
      exists (bip39_words : gset str) (last_scan_time : value),
        P_returns (detector_init fs file) (inr (bip39_words, last_scan_time))
        /\ bip39_words <> ∅
        /\ returns (load_bip39_words fs None) bip39_words
        /\ P_returns (get_last_scan_time file) last_scan_time).
Proof.
  destruct (load_bip39_words_spec_aux fs None) as (Hmiss & Herr & Hok).
  simpl in Hmiss, Herr, Hok.
  destruct (get_last_scan_time_returns file) as (lt & last_scan_time & Et & Etl).
  assert (Hinit : forall l (D : gset str),
            load_bip39_words fs None = (l, inr D) ->
            (D = ∅ -> P_returns (detector_init fs file) (inl 1))
            /\ (D <> ∅ ->
                P_returns (detector_init fs file) (inr (D, last_scan_time)))).
  { intros l D E. unfold detector_init, of_bip39, P_returns. rewrite E, Etl. simpl.
    unfold P_bind, P_log, P_ret. split; intros HD.
    - by rewrite bool_decide_eq_true_2.
    - rewrite bool_decide_eq_false_2 by exact HD. simpl.
      by destruct (truthy_value last_scan_time). }
  assert (Hsplit : forall D : gset str,
            returns (load_bip39_words fs None) D ->
            (P_returns (detector_init fs file) (inl 1) <-> D = ∅)
            /\ (D <> ∅ -> P_returns (detector_init fs file) (inr (D, last_scan_time)))).
  { intros D HD. unfold returns in HD.
    destruct (load_bip39_words fs None) as [l r] eqn:E. simpl in HD. subst r.
    destruct (Hinit l D eq_refl) as [H1 H2]. split; [|exact H2].
    split; [|exact H1]. intros Hexit. destruct (decide (D = ∅)) as [|Hne]; [done|].
    specialize (H2 Hne). unfold P_returns in *. congruence. }
  destruct (os_path_exists fs config.BIP39_WORDLIST_FILE) eqn:Hex.
  2:{ destruct (Hsplit ∅) as [Hiff _]; [unfold returns; by rewrite Hmiss|].
      split; [split; [by left|intros _; by apply Hiff]|].
      intros Hne. exfalso. by apply Hne, Hiff. }
  destruct (read_text fs config.BIP39_WORDLIST_FILE) as [e|content] eqn:Hread.
  { destruct (Hsplit ∅) as [Hiff _]; [unfold returns; by rewrite (Herr e)|].
    split; [split; [right; left; by exists e|intros _; by apply Hiff]|].
    intros Hne. exfalso. by apply Hne, Hiff. }
  destruct (Hok content eq_refl eq_refl) as (words & E & _).
  destruct (Hsplit words) as [Hiff Hret]; [unfold returns; by rewrite E|].
  pose proof (load_empty_iff_blank fs None content Hex Hread) as Hblank.
  unfold returns in Hblank. rewrite E in Hblank. simpl in Hblank.
  split.
  - rewrite Hiff. split.
    + intros ->. right. right. exists content. split; [reflexivity|by apply Hblank].
    + intros [?|[[e ?]|(content' & [= <-] & Hall)]]; [done|done|].
      apply Hblank in Hall. by injection Hall.
  - intros Hne. exists words, last_scan_time.
    assert (Hw : words <> ∅) by (intros ->; by apply Hne, Hiff).
    split; [by apply Hret|]. split; [exact Hw|].
    split; [unfold returns; by rewrite E|exact Et].
Qed.

Lemma detector_init_exits_iff_witness :
  P_returns (detector_init fs_missing NoFile) (inl 1)
  /\ exists (bip39_words : gset str) (last_scan_time : value),
       P_returns (detector_init fs_present NoFile) (inr (bip39_words, last_scan_time))
       /\ bip39_words <> ∅.
Proof.
  split.
  - apply (proj1 (detector_init_exits_iff fs_missing NoFile)). by left.
  - destruct (proj2 (detector_init_exits_iff fs_present NoFile))
      as (D & t & H1 & H2 & _); [vm_compute; discriminate|].
    by exists D, t.
Defined.

(** ** get_channel_videos *)

Lemma for_playlist_items_no_limit (its : list playlist_item) (videos : list video) :
  for_playlist_items None its videos = inr (videos ++ (to_video <$> its)).
Proof.
  revert videos. induction its as [|item its IH]; intros videos; simpl.
  - by rewrite app_nil_r.
  - rewrite IH. by rewrite <- app_assoc.
Qed.

Lemma channel_videos_loop_all (youtube : channel_client) (uploads : str)
    (pages : list playlist_items_response) (last_page : playlist_items_response)
    (fuel n : nat) (page_token : option str) (videos : list video) :
  serves_videos youtube uploads n page_token (pages ++ [last_page]) ->
  Forall (fun page => truthy_token (playlist_nextPageToken page) = true) pages ->
  truthy_token (playlist_nextPageToken last_page) = false ->
  (length pages < fuel)%nat ->
  P_returns (channel_videos_loop fuel youtube None n page_token videos)
    (Some (videos ++ (to_video <$> concat (playlist_items <$> pages ++ [last_page])))).
Proof.
  revert fuel n page_token videos.
  induction pages as [|page pages IH]; intros fuel n page_token videos Hs Htok Hlast Hfuel.
  - destruct fuel as [|fuel]; [simpl in Hfuel; lia|].
    simpl in Hs. destruct Hs as ([others Hc] & Hp & _).
    simpl. rewrite Hc, P_bind_pure, Hp, P_bind_pure, for_playlist_items_no_limit.
    rewrite Hlast. simpl. by rewrite app_nil_r.
  - destruct fuel as [|fuel]; [simpl in Hfuel; lia|].
    inversion Htok as [|? ? Ht Htok']; subst.
    simpl in Hs. destruct Hs as ([others Hc] & Hp & Hs).
    cbn [channel_videos_loop].
    rewrite Hc, P_bind_pure, Hp, P_bind_pure, for_playlist_items_no_limit.
    rewrite Ht. simpl negb. cbv iota.
    rewrite <- app_comm_cons, fmap_cons. simpl concat.
    rewrite (fmap_app to_video), app_assoc.
    apply IH; try done. simpl in Hfuel. lia.
Qed.

Lemma channel_videos_loop_endless (youtube : channel_client)
    (fuel n : nat) (page_token : option str) (videos : list video) :
  (forall n, exists uploads others, channels_list youtube n = inr (uploads :: others)) ->
  (forall n uploads page_token,
     exists page,
       playlistItems_list youtube n uploads page_token = inr page
       /\ truthy_token (playlist_nextPageToken page) = true) ->
  P_returns (channel_videos_loop fuel youtube None n page_token videos) None.
Proof.
  intros Hc Hp. revert n page_token videos.
  induction fuel as [|fuel IH]; intros n page_token videos; [reflexivity|].
  destruct (Hc n) as (uploads & others & Ec).
  destruct (Hp n uploads page_token) as (page & Ep & Ht).
  cbn [channel_videos_loop].
  rewrite Ec, P_bind_pure, Ep, P_bind_pure, for_playlist_items_no_limit, Ht.
  apply IH.
Qed.

Lemma channel_videos_loop_no_channel (youtube : channel_client) (uploads : str)
    (pages : list playlist_items_response)
    (fuel n : nat) (page_token : option str) (videos : list video) :
  serves_videos youtube uploads n page_token pages ->
  Forall (fun page => truthy_token (playlist_nextPageToken page) = true) pages ->
  channels_list youtube (n + length pages) = inr [] ->
  (length pages < fuel)%nat ->
  channel_videos_loop fuel youtube None n page_token videos
  = ([ErrorNoChannelInfo], inr (Some [])).
Proof.
  revert fuel n page_token videos.
  induction pages as [|page pages IH]; intros fuel n page_token videos Hs Htok He Hfuel.
  - destruct fuel as [|fuel]; [simpl in Hfuel; lia|].
    simpl in He. rewrite Nat.add_0_r in He. simpl. by rewrite He, P_bind_pure.
  - destruct fuel as [|fuel]; [simpl in Hfuel; lia|].
    inversion Htok as [|? ? Ht Htok']; subst.
    simpl in Hs. destruct Hs as ([others Hc] & Hp & Hs).
    cbn [channel_videos_loop].
    rewrite Hc, P_bind_pure, Hp, P_bind_pure, for_playlist_items_no_limit.
    rewrite Ht. simpl negb. cbv iota.
    apply IH; try done; [|simpl in Hfuel; lia].
    replace (S n + length pages)%nat with (n + length (page :: pages))%nat
      by (simpl; lia).
    exact He.
Qed.

Lemma get_channel_videos_client (fuel : nat) (client : channel_client)
    (date_limit_of : Z -> str) :
  get_channel_videos fuel (Some client) date_limit_of
  = (InfoFetchingVideos :: fst (channel_videos_loop fuel client None 0 None []),
     snd (channel_videos_loop fuel client None 0 None [])).
Proof.
  unfold get_channel_videos. simpl. unfold P_bind, P_log.
  by destruct (channel_videos_loop _ _ _ _ _ _).
Qed.

(** X22: [get_channel_videos] returns the videos of all the pages of the
    uploads play list, in order, following the next-page tokens up to the
    page without a token; with [DAYS_TO_SCAN] unset no video is left out
    for its date. *)
Theorem channel_videos_all_pages (youtube : channel_client) (uploads : str)
    (date_limit_of : Z -> str)
    (pages : list playlist_items_response) (last_page : playlist_items_response)
    (fuel : nat) :
  serves_videos youtube uploads 0 None (pages ++ [last_page]) ->
  Forall (fun page => truthy_token (playlist_nextPageToken page) = true) pages ->
  truthy_token (playlist_nextPageToken last_page) = false ->
  (length pages < fuel)%nat ->
  P_returns (get_channel_videos fuel (Some youtube) date_limit_of)
    (Some (to_video <$> concat (playlist_items <$> pages ++ [last_page]))).
Proof.
  intros Hs Htok Hlast Hfuel. rewrite get_channel_videos_client.
  exact (channel_videos_loop_all youtube uploads pages last_page fuel 0 None []
           Hs Htok Hlast Hfuel).
Qed.

(** X23: the loop of [get_channel_videos] has no bound on the pages: with a
    client that names a play list at every look-up and announces a next
    page with every page, it has not returned after any number of
    iterations. *)
Theorem channel_videos_never_ends (youtube : channel_client)
    (date_limit_of : Z -> str) (fuel : nat) :
  (forall n, exists uploads others, channels_list youtube n = inr (uploads :: others)) ->
  (forall n uploads page_token,
     exists page,
       playlistItems_list youtube n uploads page_token = inr page
       /\ truthy_token (playlist_nextPageToken page) = true) ->
  P_returns (get_channel_videos fuel (Some youtube) date_limit_of) None.
Proof.
  intros Hc Hp. rewrite get_channel_videos_client.
  exact (channel_videos_loop_endless youtube fuel 0 None [] Hc Hp).
Qed.

(** X24: when a look-up of the channel comes back without items,
    [get_channel_videos] logs the error and returns the empty list, also
    after pages of videos have been collected. *)
Theorem channel_lookup_empty_drops_videos (youtube : channel_client) (uploads : str)
    (date_limit_of : Z -> str) (pages : list playlist_items_response) (fuel : nat) :
  serves_videos youtube uploads 0 None pages ->
  Forall (fun page => truthy_token (playlist_nextPageToken page) = true) pages ->
  channels_list youtube (length pages) = inr [] ->
  (length pages < fuel)%nat ->
  get_channel_videos fuel (Some youtube) date_limit_of
  = ([InfoFetchingVideos; ErrorNoChannelInfo], inr (Some [])).
Proof.
  intros Hs Htok He Hfuel. rewrite get_channel_videos_client.
  by rewrite (channel_videos_loop_no_channel youtube uploads pages fuel 0 None []
                Hs Htok He Hfuel).
Qed.

Lemma channel_videos_all_pages_witness :
  P_returns (get_channel_videos 5 (Some two_page_channel) (fun _ => []))
    (Some (to_video <$> concat (playlist_items <$>
             [example_page "v1" "one" (Some (py "p2"))] ++ [example_page "v2" "two" None]))).
Proof.
  apply (channel_videos_all_pages two_page_channel (py "UU1") (fun _ => [])
           [example_page "v1" "one" (Some (py "p2"))] (example_page "v2" "two" None) 5).
  - simpl. repeat split; by exists [].
  - by repeat constructor.
  - reflexivity.
  - simpl. lia.
Defined.

Lemma channel_videos_never_ends_witness :
  P_returns (get_channel_videos 1000 (Some endless_channel) (fun _ => [])) None.
Proof.
  apply (channel_videos_never_ends endless_channel (fun _ => []) 1000).
  - intros n. by exists (py "UU1"), [].
  - intros n uploads page_token. eexists. split; reflexivity.
Defined.

Lemma channel_lookup_empty_drops_videos_witness :
  get_channel_videos 5 (Some vanishing_channel) (fun _ => [])
  = ([InfoFetchingVideos; ErrorNoChannelInfo], inr (Some [])).
Proof.
  apply (channel_lookup_empty_drops_videos vanishing_channel (py "UU1") (fun _ => [])
           [example_page "v1" "one" (Some (py "p2"))] 5).
  - simpl. repeat split. by exists [].
  - by repeat constructor.
  - reflexivity.
  - simpl. lia.
Defined.
